(** * FIR coefficient design, Q1.15 quantization, hex export and the
      cocotb streaming harness

    A shallow embedding of
      - [src/filter_design.py]   (design, quantization, coefficient export),
      - [debug_filter.py]        (hex coefficient import),
      - [tb/cocotb/test_fir.py]  (float/Q15 conversion and the clocked harness),
      - [librelane/run_librelane.py] (step selection and the step loop).

    Numbers.  A finite binary64 value is a rational, and every floating-point
    operation the quantizer performs on it is exact: scaling by the power of
    two [1 << frac_bits], [np.round] (round to nearest, ties to even, on the
    exact value), [np.clip], and the division of a 16-bit integer by the
    scale.  Floats are therefore embedded as [Q], integers as [Z].  NaN and
    infinities are outside the embedding of the quantizer, and in
    [quantize_coeff] and [dequantize_coeff] the bit count is understood in
    the range 0 to 1023, where [scale] is itself a binary64 value (15 in
    the reference configuration); [quantize_array] and the design function
    carry the exceptions raised outside that range.  Where the design
    function converts a number to a float or divides two floats, the
    result is rounded to binary64 by [binary64].  The decimal literals of
    the source are embedded by the binary64 value Python reads them as.

    Text.  A file is its sequence of characters; the importer is embedded
    on ASCII text, read in text mode (any of the three line ends). *)

From Stdlib Require Import ZArith QArith Qabs Qround Qminmax Lqa Lia.
From Stdlib Require Import List String Ascii Bool.
Import ListNotations.

Local Open Scope Z_scope.

(* ================================================================== *)
(** * Part I: definitions                                              *)
(* ================================================================== *)

(** ** NumPy primitives *)

(** What a conversion of a float that does not fit the integer type
    returns.  NumPy performs a C cast there, whose result the language leaves
    to the platform; the embedding takes it as a parameter. *)
Class Platform : Type := {
  cast_int32_unspecified : Z -> Z;
  cast_int16_unspecified : Z -> Z
}.

(** The results x86-64 builds give: the conversion instruction answers an
    out-of-range operand with the pattern [0x80000000], and a 16-bit target
    keeps the low half of the 32-bit result. *)
#[export] Instance x86_64 : Platform := {
  cast_int32_unspecified := fun _ => -2147483648;
  cast_int16_unspecified := fun z =>
    if (-2147483648 <=? z) && (z <=? 2147483647)
    then (z + 32768) mod 65536 - 32768
    else 0
}.

(** [np.round] on an array of floats: round to the nearest integer, a tie
    going to the even neighbour. *)
Definition np_round (y : Q) : Z :=
  let f := Qfloor y in
  match (y - inject_Z f ?= 1 # 2)%Q with
  | Lt => f
  | Gt => f + 1
  | Eq => if Z.even f then f else f + 1
  end.

Definition in_int32 (z : Z) : bool := (-2147483648 <=? z) && (z <=? 2147483647).
Definition in_int16 (z : Z) : bool := (-32768 <=? z) && (z <=? 32767).

(** The two's-complement reading of the low 16 bits: what a conversion
    between integer types of different widths keeps. *)
Definition wrap16 (z : Z) : Z := (z + 32768) mod 65536 - 32768.

Section Numpy.
Context {P : Platform}.

(** [a.astype(np.int32)] on a float array holding the integer value [z]. *)
Definition astype_int32 (z : Z) : Z :=
  if in_int32 z then z else cast_int32_unspecified z.

(** [a.astype(np.int16)] on a float array holding the integer value [z]. *)
Definition float_astype_int16 (z : Z) : Z :=
  if in_int16 z then z else cast_int16_unspecified z.
End Numpy.

(** [np.clip(a, lo, hi)]: [minimum(maximum(a, lo), hi)], on integers and on
    floats. *)
Definition np_clip (z lo hi : Z) : Z := Z.min (Z.max z lo) hi.
Definition np_clip_float (x lo hi : Q) : Q := Qmin (Qmax x lo) hi.

(** ** [filter_design.py]: quantization to Q1.<frac_bits> *)

(** [scale = 1 << frac_bits]. *)
Definition scale_of (frac_bits : N) : Z := Z.shiftl 1 (Z.of_N frac_bits).

Section Quantizer.
Context {P : Platform}.

(** Lines 37-41, on one coefficient:
    [np.round(b * scale).astype(np.int32)], then
    [np.clip(., -32768, 32767).astype(np.int16)].  This is the arithmetic
    for a bit count from 0 to 1023; [quantize_array] below has the
    exceptions of the other counts. *)
Definition quantize_coeff (frac_bits : N) (b : Q) : Z :=
  let b_q := astype_int32 (np_round (b * inject_Z (scale_of frac_bits))) in
  wrap16 (np_clip b_q (-32768) 32767).

(** The array operations are elementwise. *)
Definition quantize (frac_bits : N) (b_float : list Q) : list Z :=
  map (quantize_coeff frac_bits) b_float.
End Quantizer.

(** Line 46: [b_rec = b_q.astype(np.float64) / scale]. *)
Definition dequantize_coeff (frac_bits : N) (q : Z) : Q :=
  (inject_Z q / inject_Z (scale_of frac_bits))%Q.

Definition dequantize (frac_bits : N) (b_q : list Z) : list Q :=
  map (dequantize_coeff frac_bits) b_q.

(** ** [test_fir.py]: sample conversion *)

Definition FRAC_BITS : N := 15.
Definition SCALE : Z := scale_of FRAC_BITS.

(** The binary64 value of the literal [0.999969]. *)
Definition clip_bound : Q := 9006920031564095 # 9007199254740992.

Section Harness_conversion.
Context {P : Platform}.

(** [float_to_q15]: clip to [-0.999969, 0.999969], scale, round, store as
    int16. *)
Definition float_to_q15 (x : Q) : Z :=
  let x := np_clip_float x (- clip_bound)%Q clip_bound in
  float_astype_int16 (np_round (x * inject_Z SCALE)).
End Harness_conversion.

(** [q15_to_float]: [q.astype(np.int16) / float(SCALE)]. *)
Definition q15_to_float (q : Z) : Q := (inject_Z (wrap16 q) / inject_Z SCALE)%Q.

(** ** [filter_design.py]: coefficient export *)

Local Open Scope string_scope.
Local Open Scope Z_scope.

Definition newline : ascii := "010"%char.

(** [np.uint16(c)] on an element of an integer array: the low 16 bits. *)
Definition np_uint16 (c : Z) : Z := c mod 65536.

(** The digit characters of the [X] presentation type. *)
Definition hex_digit (d : Z) : ascii :=
  match d with
  | 0 => "0" | 1 => "1" | 2 => "2" | 3 => "3"
  | 4 => "4" | 5 => "5" | 6 => "6" | 7 => "7"
  | 8 => "8" | 9 => "9" | 10 => "A" | 11 => "B"
  | 12 => "C" | 13 => "D" | 14 => "E" | _ => "F"
  end%char.

(** The digits of a non-negative integer in base 16, most significant
    first, without leading zeros (a single ["0"] for zero). *)
Fixpoint hex_digits (fuel : nat) (v : Z) (acc : string) : string :=
  match fuel with
  | O => acc
  | S fuel' =>
      let acc' := String (hex_digit (v mod 16)) acc in
      if v / 16 =? 0 then acc' else hex_digits fuel' (v / 16) acc'
  end.

Definition format_X (v : Z) : string :=
  hex_digits (S (Z.to_nat (Z.log2 v))) v "".

Fixpoint zeros (n : nat) : string :=
  match n with
  | O => ""
  | S n' => String "0" (zeros n')
  end.

(** [f"{v:04X}"]: upper-case hexadecimal, padded with zeros to a width of
    at least four; a sign, when there is one, comes before the padding. *)
Definition format_04X (v : Z) : string :=
  if v <? 0
  then let d := format_X (- v) in String "-" (zeros (3 - length d) ++ d)
  else let d := format_X v in zeros (4 - length d) ++ d.

(** One iteration of the loop of [export_coeffs_hex]: the line written for
    the coefficient [c]. *)
Definition hex_line (c : Z) : string :=
  format_04X (np_uint16 c) ++ String newline "".

(** [export_coeffs_hex]: the text the file holds when the function
    returns. *)
Fixpoint export_coeffs_hex (coeffs : list Z) : string :=
  match coeffs with
  | [] => ""
  | c :: rest => hex_line c ++ export_coeffs_hex rest
  end.

(** ** [debug_filter.py]: coefficient import *)

Definition carriage_return : ascii := "013"%char.

(** The file is opened in text mode: a carriage return, alone or followed
    by a line feed, is read as one line feed. *)
Fixpoint universal_newlines (text : string) : string :=
  match text with
  | "" => ""
  | String c rest =>
      if Ascii.eqb c carriage_return then
        String newline
          match rest with
          | "" => ""
          | String c' rest' =>
              if Ascii.eqb c' newline then universal_newlines rest'
              else universal_newlines rest
          end
      else String c (universal_newlines rest)
  end.

(** The pieces of a text that end at each line feed, the line feed kept. *)
Fixpoint split_lines (text : string) : list string :=
  match text with
  | "" => []
  | String c rest =>
      if Ascii.eqb c newline then String c "" :: split_lines rest
      else match split_lines rest with
           | [] => [String c ""]
           | line :: lines => String c line :: lines
           end
  end.

(** [f.readlines()] on the contents of the file: its lines, each with its
    line end.  The contents are taken as ASCII text; other bytes depend on
    the encoding the file is decoded with. *)
Definition readlines (text : string) : list string :=
  split_lines (universal_newlines text).

(** The ASCII characters [str.strip] removes. *)
Definition is_space (c : ascii) : bool :=
  let n := nat_of_ascii c in
  ((9 <=? n) && (n <=? 13) || (28 <=? n) && (n <=? 32))%nat.

Fixpoint lstrip (s : string) : string :=
  match s with
  | "" => ""
  | String c rest => if is_space c then lstrip rest else s
  end.

Fixpoint rstrip (s : string) : string :=
  match s with
  | "" => ""
  | String c rest =>
      match rstrip rest with
      | "" => if is_space c then "" else String c ""
      | rest' => String c rest'
      end
  end.

Definition strip (s : string) : string := rstrip (lstrip s).

(** The value of one base-16 digit, either case. *)
Definition hex_value (c : ascii) : option Z :=
  let n := Z.of_nat (nat_of_ascii c) in
  if (48 <=? n) && (n <=? 57) then Some (n - 48)
  else if (65 <=? n) && (n <=? 70) then Some (n - 55)
  else if (97 <=? n) && (n <=? 102) then Some (n - 87)
  else None.

Definition is_underscore (c : ascii) : bool := Ascii.eqb c "_"%char.

(** The digits of a number: hexadecimal digits with single underscores
    between them, none at the end. *)
Fixpoint hex_body (s : string) (after_underscore : bool) (acc : Z)
  : option Z :=
  match s with
  | "" => if after_underscore then None else Some acc
  | String c rest =>
      if is_underscore c then
        if after_underscore then None else hex_body rest true acc
      else
        match hex_value c with
        | Some d => hex_body rest false (16 * acc + d)
        | None => None
        end
  end.

(** A number may not be empty and may not start with an underscore. *)
Definition hex_number (s : string) : option Z :=
  match s with
  | "" => None
  | String c _ => if is_underscore c then None else hex_body s false 0
  end.

(** An optional sign. *)
Definition drop_sign (s : string) : bool * string :=
  match s with
  | "" => (false, "")
  | String c rest =>
      if Ascii.eqb c "-"%char then (true, rest)
      else if Ascii.eqb c "+"%char then (false, rest)
      else (false, s)
  end.

(** An optional [0x] or [0X], after which one underscore is allowed. *)
Definition drop_prefix16 (s : string) : string :=
  match s with
  | String c0 (String c1 rest) =>
      if Ascii.eqb c0 "0"%char
         && (Ascii.eqb c1 "x"%char || Ascii.eqb c1 "X"%char)
      then match rest with
           | "" => rest
           | String c2 rest' => if is_underscore c2 then rest' else rest
           end
      else s
  | _ => s
  end.

(** The white space [int] itself skips at both ends of an ASCII string:
    the separators [0x1c] to [0x1f], which [str.strip] removes, are not
    part of it. *)
Definition int_is_space (c : ascii) : bool :=
  let n := nat_of_ascii c in
  ((9 <=? n) && (n <=? 13) || (n =? 32))%nat.

Fixpoint int_lstrip (s : string) : string :=
  match s with
  | "" => ""
  | String c rest => if int_is_space c then int_lstrip rest else s
  end.

Fixpoint int_rstrip (s : string) : string :=
  match s with
  | "" => ""
  | String c rest =>
      match int_rstrip rest with
      | "" => if int_is_space c then "" else String c ""
      | rest' => String c rest'
      end
  end.

(** [int(s, 16)] on ASCII text: white space around the number is dropped,
    then come an optional sign, an optional [0x] prefix and the digits.
    [None] stands for the [ValueError] raised on anything else. *)
Definition int_base16 (s : string) : option Z :=
  let '(negative, s1) := drop_sign (int_rstrip (int_lstrip s)) in
  match hex_number (drop_prefix16 s1) with
  | Some v => Some (if negative then - v else v)
  | None => None
  end.

(** Lines 32-34 of [analyze_filter]: one line of the file to a signed
    16-bit coefficient. *)
Definition parse_hex_line (line : string) : option Z :=
  match int_base16 (strip line) with
  | Some val => Some (if val >? 32767 then val - 65536 else val)
  | None => None
  end.

Fixpoint parse_hex_lines (lines : list string) : option (list Z) :=
  match lines with
  | [] => Some []
  | line :: rest =>
      match parse_hex_line line with
      | None => None
      | Some val =>
          match parse_hex_lines rest with
          | None => None
          | Some coeffs => Some (val :: coeffs)
          end
      end
  end.

(** Lines 27-35 of [analyze_filter]: the list [coeffs] read back from the
    text of the hex file, before it is divided by 32768. *)
Definition import_coeffs_hex (text : string) : option (list Z) :=
  parse_hex_lines (readlines text).

(** ** [filter_design.py]: the design function *)

Inductive exception : Type :=
| ZeroDivisionError
| IndexError
| ValueError
| OverflowError.

Inductive result (A : Type) : Type :=
| Ok (a : A)
| Raise (e : exception).
Arguments Ok {A} a.
Arguments Raise {A} e.

(** *** Rounding to binary64 *)

Definition pow2 (e : Z) : Q := Qpower 2 e.

(** The exponent [e] with [2 ^ e <= a < 2 ^ (e + 1)], for a positive
    [a]. *)
Definition floor_log2 (a : Q) : Z :=
  let l := Z.log2 (Qnum a) - Z.log2 (Zpos (Qden a)) in
  if Qle_bool (pow2 l) a then l else l - 1.

(** The binary64 value nearest to [q], ties to the even significand: 53
    significant bits, and a spacing of [2 ^ -1074] below [2 ^ -1022].
    [None] when the rounded magnitude reaches [2 ^ 1024], which no finite
    binary64 value does. *)
Definition binary64 (q : Q) : option Q :=
  if Qeq_bool q 0 then Some 0%Q
  else
    let a := Qabs q in
    let u := Z.max (floor_log2 a - 52) (-1074) in
    let r := (inject_Z (np_round (a / pow2 u)) * pow2 u)%Q in
    if Qle_bool (pow2 1024) r then None
    else Some (if Qle_bool 0 q then r else (- r)%Q).

(** A float that may be infinite: what a division of finite floats can
    give. *)
Inductive float64 : Type :=
| Finite (q : Q)
| Infinite (negative : bool).

(** The conversion of a number (an [int], or a float already) to a float
    for a float operation; an integer too large for binary64 raises
    [OverflowError]. *)
Definition float_of_number (x : Q) : result Q :=
  match binary64 x with
  | Some f => Ok f
  | None => Raise OverflowError
  end.

(** The quotient of two floats, the divisor not zero: correctly rounded,
    and infinite on overflow. *)
Definition float_div (x y : Q) : float64 :=
  match binary64 (x / y) with
  | Some f => Finite f
  | None => Infinite (negb (Qle_bool 0 (x / y)))
  end.

(** [scipy.signal.firwin(numtaps, [low, high], pass_zero=False,
    window="hamming")].  The library is not part of the repository; the
    design function is embedded over any implementation of the call, which
    either returns the float kernel or raises. *)
Class Signal_library : Type := {
  firwin : Z -> float64 -> float64 -> result (list Q)
}.

Section Design.
Context {P : Platform} {L : Signal_library}.

(** Lines 37-41 on the whole array.  [1 << frac_bits] raises [ValueError]
    on a negative count, and [b_float * scale] raises [OverflowError] when
    the integer [scale] is too large to become a float, that is from
    [2 ^ 1024] on. *)
Definition quantize_array (frac_bits : Z) (b_float : list Q)
  : result (list Z) :=
  if frac_bits <? 0 then Raise ValueError
  else if 1024 <=? frac_bits then Raise OverflowError
  else Ok (quantize (Z.to_N frac_bits) b_float).

(** [design_bandpass_fir_filter(fs, fc, numtaps, frac_bits)], returning
    [(b_q, b_rec, b_float)].  [0.5 * fs] and the two divisions convert
    their integer operand to a float and raise [OverflowError] when it is
    too large; [fc[0]] and [fc[1]] raise [IndexError] on a short list; the
    division by a zero Nyquist frequency raises [ZeroDivisionError]; the
    quantization raises as [quantize_array] does; and the summary's
    [np.max(b_q)] raises [ValueError] on an empty array.  [signal.freqz]
    only feeds the printed summary. *)
Definition design_bandpass_fir_filter
    (fs : Z) (fc : list Q) (numtaps : Z) (frac_bits : Z)
  : result (list Z * list Q * list Q) :=
  match float_of_number (inject_Z fs) with
  | Raise e => Raise e
  | Ok fs_float =>
  let nyquist := ((1 # 2) * fs_float)%Q in
  match nth_error fc 0 with
  | None => Raise IndexError
  | Some fc0 =>
  match float_of_number fc0 with
  | Raise e => Raise e
  | Ok fc0_float =>
  if Qeq_bool nyquist 0 then Raise ZeroDivisionError else
  let low_fc := float_div fc0_float nyquist in
  match nth_error fc 1 with
  | None => Raise IndexError
  | Some fc1 =>
  match float_of_number fc1 with
  | Raise e => Raise e
  | Ok fc1_float =>
  let high_fc := float_div fc1_float nyquist in
  match firwin numtaps low_fc high_fc with
  | Raise e => Raise e
  | Ok b_float =>
  match quantize_array frac_bits b_float with
  | Raise e => Raise e
  | Ok b_q =>
  let b_rec := dequantize (Z.to_N frac_bits) b_q in
  match b_q with
  | [] => Raise ValueError
  | _ :: _ => Ok (b_q, b_rec, b_float)
  end
  end end end end end end end.
End Design.

(** The tap count of the reference configuration ([numtaps = 121] in the
    main block of [filter_design.py] and in [debug_filter.py]). *)
Definition numtaps_reference : Z := 121.

(** ** [test_fir.py]: the clocked harness *)

(** The signals the harness drives. *)
Record Pins : Type := {
  rst : bool;
  s_axis_fir_tdata : Z;
  s_axis_fir_tvalid : bool;
  m_axis_fir_tready : bool
}.

(** The device under test, as the harness sees it: a state that a rising
    clock edge advances under the driven signals, and the two output
    signals read after the edge ([m_axis_fir_tdata] through
    [.signed_integer]). *)
Class Dut : Type := {
  dut_state : Type;
  rising_edge : dut_state -> Pins -> dut_state;
  m_axis_fir_tvalid : dut_state -> bool;
  m_axis_fir_tdata : dut_state -> Z
}.

Definition RESET_CYCLES : nat := 5.
Definition DRAIN_CYCLES : nat := 300.

Definition reset_pins : Pins :=
  {| rst := true; s_axis_fir_tdata := 0;
     s_axis_fir_tvalid := false; m_axis_fir_tready := true |}.

Definition set_rst (p : Pins) (v : bool) : Pins :=
  {| rst := v; s_axis_fir_tdata := s_axis_fir_tdata p;
     s_axis_fir_tvalid := s_axis_fir_tvalid p;
     m_axis_fir_tready := m_axis_fir_tready p |}.

Definition set_tdata (p : Pins) (v : Z) : Pins :=
  {| rst := rst p; s_axis_fir_tdata := v;
     s_axis_fir_tvalid := s_axis_fir_tvalid p;
     m_axis_fir_tready := m_axis_fir_tready p |}.

Definition set_tvalid (p : Pins) (v : bool) : Pins :=
  {| rst := rst p; s_axis_fir_tdata := s_axis_fir_tdata p;
     s_axis_fir_tvalid := v;
     m_axis_fir_tready := m_axis_fir_tready p |}.

Section Harness.
Context {D : Dut}.

(** [for _ in range(n): await RisingEdge(dut.clk)]. *)
Fixpoint clock_cycles (n : nat) (p : Pins) (d : dut_state) : dut_state :=
  match n with
  | O => d
  | S n' => clock_cycles n' p (rising_edge d p)
  end.

(** What one valid output adds to [fir_out]. *)
Definition valid_sample (d : dut_state) : list Z :=
  if m_axis_fir_tvalid d then [m_axis_fir_tdata d] else [].

(** [if dut.m_axis_fir_tvalid.value: fir_out.append(...)]. *)
Definition collect (d : dut_state) (fir_out : list Z) : list Z :=
  if m_axis_fir_tvalid d then fir_out ++ [m_axis_fir_tdata d] else fir_out.

(** The feeding loop, lines 84-91. *)
Fixpoint feed (x_q15 : list Z) (p : Pins) (d : dut_state)
    (fir_out : list Z) : Pins * dut_state * list Z :=
  match x_q15 with
  | [] => (p, d, fir_out)
  | sample :: rest =>
      let p := set_tvalid (set_tdata p sample) true in
      let d := rising_edge d p in
      feed rest p d (collect d fir_out)
  end.

(** The drain loop, lines 97-101. *)
Fixpoint drain (n : nat) (p : Pins) (d : dut_state) (fir_out : list Z)
  : dut_state * list Z :=
  match n with
  | O => (d, fir_out)
  | S n' =>
      let d := rising_edge d p in
      drain n' p d (collect d fir_out)
  end.

(** The state in which feeding starts: reset held for five edges, then
    released for one. *)
Definition released (dut : dut_state) : Pins * dut_state :=
  let d := clock_cycles RESET_CYCLES reset_pins dut in
  let p := set_rst reset_pins false in
  (p, rising_edge d p).

(** [run_fir(dut, x_q15)]: the list [fir_out] the function collects; the
    returned array holds these values as 16-bit integers. *)
Definition run_fir (dut : dut_state) (x_q15 : list Z) : list Z :=
  let '(p, d) := released dut in
  let '(p, d, fir_out) := feed x_q15 p d [] in
  let p := set_tvalid p false in
  snd (drain DRAIN_CYCLES p d fir_out).
End Harness.

(** An example device for running the harness: a direct-form filter with
    the taps [1, 2, 3, 2, 1] in Q.3 and one cycle of latency.  Its state is
    the delay line, the output valid flag and the output word. *)
Definition example_taps : list Z := [1; 2; 3; 2; 1].

Fixpoint dot (a b : list Z) : Z :=
  match a, b with
  | x :: a', y :: b' => x * y + dot a' b'
  | _, _ => 0
  end.

#[export] Instance example_dut : Dut := {
  dut_state := list Z * bool * Z;
  rising_edge := fun '(line, _, out) p =>
    if rst p then (repeat 0 5, false, 0)
    else if s_axis_fir_tvalid p && m_axis_fir_tready p
         then let line' := firstn 5 (s_axis_fir_tdata p :: line) in
              (line', true, Z.shiftr (dot example_taps line') 3)
         else (line, false, out);
  m_axis_fir_tvalid := fun '(_, v, _) => v;
  m_axis_fir_tdata := fun '(_, _, out) => out
}.

(** An example of the library call: the five-tap kernel of the
    specification's worked example, whatever the band edges. *)
#[export] Instance example_library : Signal_library := {
  firwin := fun numtaps _ _ =>
    if numtaps =? 5
    then Ok [1 # 10; 2 # 10; 4 # 10; 2 # 10; 1 # 10]%Q
    else Raise ValueError
}.


(** ** Reference notions the claims are measured against *)

(** The number of values the clamp of line 41 changed: those whose 32-bit
    value lies outside the 16-bit range.  This follows the specification's
    wording ("values that were clamped"); the source computes no such
    number. *)
Section Saturation_count.
Context {P : Platform}.

Definition clamped (frac_bits : N) (b : Q) : bool :=
  let b_q := astype_int32 (np_round (b * inject_Z (scale_of frac_bits))) in
  negb (np_clip b_q (-32768) 32767 =? b_q).

Definition spec_saturation_count (frac_bits : N) (b_float : list Q) : nat :=
  List.length (filter (clamped frac_bits) b_float).
End Saturation_count.

(** Nibble [k] of the two's-complement bit pattern of [c] (nibble 0 is the
    least significant). *)
Definition nibble (c k : Z) : Z := Z.land (Z.shiftr c (4 * k)) 15.

(** The four base-16 digits of a 16-bit value, most significant first. *)
Definition four_digits (u : Z) : string :=
  String (hex_digit (u / 16 / 16 / 16))
    (String (hex_digit ((u / 16 / 16) mod 16))
       (String (hex_digit ((u / 16) mod 16))
          (String (hex_digit (u mod 16)) ""))).

Definition upper_hex_alphabet : list ascii :=
  list_ascii_of_string "0123456789ABCDEF".

(** The binary64 values of the decimal literals used in the examples. *)
Definition binary64_0_1 : Q := 3602879701896397 # 36028797018963968.
Definition binary64_0_2 : Q := 3602879701896397 # 18014398509481984.
Definition binary64_0_4 : Q := 3602879701896397 # 9007199254740992.
Definition binary64_0_99997 : Q := 4503464519381675 # 4503599627370496.

(** ** [filter_design.py]: decimal export *)

Definition dec_digit (d : Z) : ascii :=
  match d with
  | 0 => "0" | 1 => "1" | 2 => "2" | 3 => "3" | 4 => "4"
  | 5 => "5" | 6 => "6" | 7 => "7" | 8 => "8" | _ => "9"
  end%char.

(** The digits of a non-negative integer in base 10, most significant
    first. *)
Fixpoint dec_digits (fuel : nat) (v : Z) (acc : string) : string :=
  match fuel with
  | O => acc
  | S fuel' =>
      let acc' := String (dec_digit (v mod 10)) acc in
      if v / 10 =? 0 then acc' else dec_digits fuel' (v / 10) acc'
  end.

(** [f"{int(c)}"]: the decimal digits, after a minus sign for a negative
    value. *)
Definition format_d (v : Z) : string :=
  if v <? 0
  then String "-" (dec_digits (S (Z.to_nat (Z.log2 (- v)))) (- v) "")
  else dec_digits (S (Z.to_nat (Z.log2 v))) v "".

(** One iteration of the loop of [export_coeffs_decimal]. *)
Definition decimal_line (c : Z) : string :=
  format_d c ++ String newline "".

(** [export_coeffs_decimal]: the text the file holds when the function
    returns. *)
Fixpoint export_coeffs_decimal (coeffs : list Z) : string :=
  match coeffs with
  | [] => ""
  | c :: rest => decimal_line c ++ export_coeffs_decimal rest
  end.

(** ** [test_fir.py]: the CSV written by [test_fir_only] *)

(** The header row, line 139. *)
Definition csv_header : list string :=
  ["n"; "t"; "input_q15"; "input_float"; "fir_q15"; "fir_float"].

(** One data row, lines 141-148. *)
Record Csv_row : Type := {
  row_n : nat;
  row_t : Q;
  row_input_q15 : Z;
  row_input_float : Q;
  row_fir_q15 : Z;
  row_fir_float : Q
}.

(** The row built for index [i]; indexing an array past its end raises
    [IndexError]. *)
Definition csv_row (t : list Q) (x_q15 : list Z) (x_float : list Q)
    (fir_q15 : list Z) (fir_float : list Q) (i : nat) : result Csv_row :=
  match nth_error t i, nth_error x_q15 i, nth_error x_float i,
        nth_error fir_q15 i, nth_error fir_float i with
  | Some ti, Some xq, Some xf, Some yq, Some yf =>
      Ok {| row_n := i; row_t := ti; row_input_q15 := xq;
            row_input_float := xf; row_fir_q15 := yq; row_fir_float := yf |}
  | _, _, _, _, _ => Raise IndexError
  end.

(** The loop of line 140 over the given indices: the rows written, and the
    exception that ended the loop early, if any. *)
Fixpoint write_rows (t : list Q) (x_q15 : list Z) (x_float : list Q)
    (fir_q15 : list Z) (fir_float : list Q) (indices : list nat)
  : list Csv_row * option exception :=
  match indices with
  | [] => ([], None)
  | i :: rest =>
      match csv_row t x_q15 x_float fir_q15 fir_float i with
      | Raise e => ([], Some e)
      | Ok row =>
          let '(rows, e) := write_rows t x_q15 x_float fir_q15 fir_float rest in
          (row :: rows, e)
      end
  end.

(** Lines 134-148 for one signal: [fir_float = q15_to_float(fir_q15)] and
    one row per collected output sample. *)
Definition write_csv (t : list Q) (x_q15 : list Z) (x_float : list Q)
    (fir_q15 : list Z) : list Csv_row * option exception :=
  write_rows t x_q15 x_float fir_q15 (map q15_to_float fir_q15)
    (seq 0 (List.length fir_q15)).

(** ** [run_librelane.py]: the flow runner *)

Definition FLOW_STEPS : list (string * string) :=
  [ ("synthesis", "Yosys.Synthesis");
    ("floorplan", "OpenROAD.Floorplan");
    ("tap_endcap", "OpenROAD.TapEndcapInsertion");
    ("io_placement", "OpenROAD.IOPlacement");
    ("pdn", "OpenROAD.GeneratePDN");
    ("global_placement", "OpenROAD.GlobalPlacement");
    ("detailed_placement", "OpenROAD.DetailedPlacement");
    ("cts", "OpenROAD.CTS");
    ("global_routing", "OpenROAD.GlobalRouting");
    ("detailed_routing", "OpenROAD.DetailedRouting");
    ("gds_export", "KLayout.StreamOut") ].

(** The truth value of an optional command-line string: [None] and the
    empty string are false. *)
Definition truthy (s : option string) : bool :=
  match s with
  | None => false
  | Some v => negb (String.eqb v "")
  end.

Definition arg_value (s : option string) : string :=
  match s with
  | None => ""
  | Some v => v
  end.

(** Lines 101-104: the first step with the given name. *)
Fixpoint find_step (name : string) (steps : list (string * string))
  : list (string * string) :=
  match steps with
  | [] => []
  | (n, step_id) :: rest =>
      if String.eqb n name then [(n, step_id)] else find_step name rest
  end.

(** Lines 111-114: the steps up to and including the first one with the
    given name, or all of them when there is none. *)
Fixpoint steps_until (name : string) (steps : list (string * string))
  : list (string * string) :=
  match steps with
  | [] => []
  | (n, step_id) :: rest =>
      (n, step_id) ::
      (if String.eqb n name then [] else steps_until name rest)
  end.

(** What the selection of [run_flow] ends in: the steps to run, or
    [sys.exit(code)]. *)
Inductive selection : Type :=
| Selected (steps : list (string * string))
| Exited (code : Z).

(** Lines 97-121 of [run_flow]. *)
Definition steps_to_run (single_step until_step : option string) : selection :=
  if truthy single_step then
    match find_step (arg_value single_step) FLOW_STEPS with
    | [] => Exited 1
    | found => Selected found
    end
  else if truthy until_step then
    let steps := steps_until (arg_value until_step) FLOW_STEPS in
    if existsb (fun '(n, _) => String.eqb n (arg_value until_step)) steps
    then Selected steps
    else Exited 1
  else Selected FLOW_STEPS.

(** The tool the runner drives.  [Config(path)] either loads or raises,
    a step either produces the next state or raises, and
    [state.get_views()] either returns or raises. *)
Class Flow_tools : Type := {
  flow_state : Type;
  State_new : flow_state;
  Config_loads : string -> bool;
  step_state_out : flow_state -> string -> option flow_state;
  get_views_returns : flow_state -> bool
}.

Inductive flow_result {T : Flow_tools} : Type :=
| Returned (state : flow_state)
| Raised
| SystemExit (code : Z).

Section Flow.
Context {T : Flow_tools}.

(** Lines 124-126: the steps in order, each on the state the previous one
    left; an exception in [run_step] is printed and raised again.  The
    first component lists the step ids that were started. *)
Fixpoint run_steps (state : flow_state) (steps : list (string * string))
  : list string * flow_result :=
  match steps with
  | [] => ([], Returned state)
  | (_, step_id) :: rest =>
      match step_state_out state step_id with
      | None => ([step_id], Raised)
      | Some state' =>
          let '(started, r) := run_steps state' rest in
          (step_id :: started, r)
      end
  end.

(** [run_flow(config_path, single_step, until_step)]. *)
Definition run_flow (config_path : string)
    (single_step until_step : option string) : list string * flow_result :=
  if Config_loads config_path then
    match steps_to_run single_step until_step with
    | Exited code => ([], SystemExit code)
    | Selected steps =>
        match run_steps State_new steps with
        | (started, Returned state) =>
            if get_views_returns state then (started, Returned state)
            else (started, Raised)
        | stopped => stopped
        end
    end
  else ([], Raised).

End Flow.

(** An example of the tool: the state counts the steps run, and the clock
    tree step fails. *)
#[export] Instance example_tools : Flow_tools := {
  flow_state := nat;
  State_new := O;
  Config_loads := fun _ => true;
  step_state_out := fun state step_id =>
    if String.eqb step_id "OpenROAD.CTS" then None else Some (S state);
  get_views_returns := fun _ => true
}.

(** ** More reference notions *)

(** The signals the harness drives outside reset. *)
Definition drive (sample : Z) (valid : bool) : Pins :=
  {| rst := false; s_axis_fir_tdata := sample;
     s_axis_fir_tvalid := valid; m_axis_fir_tready := true |}.

(** The driven signals of a whole run, one entry per clock edge. *)
Definition stimulus (x_q15 : list Z) : list Pins :=
  (repeat reset_pins RESET_CYCLES ++
   drive 0 false ::
   map (fun sample => drive sample true) x_q15 ++
   repeat (drive (last x_q15 0) false) DRAIN_CYCLES)%list.

Section Trace.
Context {D : Dut}.

(** The device states after each edge of a list of driven signals. *)
Fixpoint dut_trace (d : dut_state) (pins : list Pins) : list dut_state :=
  match pins with
  | [] => []
  | p :: rest => rising_edge d p :: dut_trace (rising_edge d p) rest
  end.
End Trace.

(** The row of index [i], as the loop of [test_fir_only] pairs the
    arrays: output sample [i] beside input sample [i]. *)
Definition expected_row (t : list Q) (x_q15 : list Z) (x_float : list Q)
    (fir_q15 : list Z) (i : nat) : Csv_row :=
  {| row_n := i; row_t := nth i t 0%Q; row_input_q15 := nth i x_q15 0;
     row_input_float := nth i x_float 0%Q; row_fir_q15 := nth i fir_q15 0;
     row_fir_float := q15_to_float (nth i fir_q15 0) |}.

(** A line of four upper-case hexadecimal digits and a line end. *)
Definition canonical_hex_line (line : string) : Prop :=
  exists a b c d : ascii,
    line = String a (String b (String c (String d (String newline "")))) /\
    In a upper_hex_alphabet /\ In b upper_hex_alphabet /\
    In c upper_hex_alphabet /\ In d upper_hex_alphabet.

Fixpoint concat_lines (lines : list string) : string :=
  match lines with
  | [] => ""
  | line :: rest => line ++ concat_lines rest
  end.

(** Text made of ASCII characters only. *)
Definition ascii_text (s : string) : Prop :=
  Forall (fun c => (nat_of_ascii c < 128)%nat) (list_ascii_of_string s).

(** ASCII upper-casing, as [str.upper] does it on ASCII letters. *)
Definition ascii_upper (c : ascii) : ascii :=
  let n := nat_of_ascii c in
  if ((97 <=? n) && (n <=? 122))%nat then ascii_of_nat (n - 32) else c.

Fixpoint string_upper (s : string) : string :=
  match s with
  | "" => ""
  | String c rest => String (ascii_upper c) (string_upper rest)
  end.

(** The value of a string of decimal digits; [None] on any other
    character. *)
Fixpoint int_digits10 (s : string) (acc : Z) : option Z :=
  match s with
  | "" => Some acc
  | String c rest =>
      let n := Z.of_nat (nat_of_ascii c) in
      if (48 <=? n) && (n <=? 57) then int_digits10 rest (10 * acc + (n - 48))
      else None
  end.

(** [int(s)] on an optional minus sign followed by decimal digits. *)
Definition int_base10 (s : string) : option Z :=
  match s with
  | "" => None
  | String "-" "" => None
  | String "-" rest =>
      match int_digits10 rest 0 with
      | Some v => Some (- v)
      | None => None
      end
  | _ => int_digits10 s 0
  end.

(* ================================================================== *)
(** * Part II: theorems                                                *)
(* ================================================================== *)

(** ** Rounding *)

Lemma np_round_cases (y : Q) :
  let f := Qfloor y in
  ((y - inject_Z f < 1 # 2)%Q /\ np_round y = f) \/
  ((1 # 2 < y - inject_Z f)%Q /\ np_round y = f + 1) \/
  ((y - inject_Z f == 1 # 2)%Q /\ Z.even (np_round y) = true /\
   (np_round y = f \/ np_round y = f + 1)).
Proof.
  intro f. unfold np_round. fold f.
  destruct (Qcompare_spec (y - inject_Z f) (1 # 2)) as [He | Hl | Hg].
  - right; right. split; [exact He|].
    destruct (Z.even f) eqn:Ev.
    + split; [exact Ev | now left].
    + split; [| now right].
      rewrite Z.even_add, Ev. reflexivity.
  - left. split; [exact Hl | reflexivity].
  - right; left. split; [exact Hg | reflexivity].
Qed.

Lemma floor_bounds (y : Q) :
  (inject_Z (Qfloor y) <= y /\ y < inject_Z (Qfloor y) + 1)%Q.
Proof.
  split; [apply Qfloor_le|].
  pose proof (Qlt_floor y) as H.
  rewrite inject_Z_plus in H. exact H.
Qed.

Ltac q_consts := change (inject_Z 1) with 1%Q in *.

(** The rounded value is within one half of the exact one. *)
Lemma np_round_error (y : Q) : (Qabs (inject_Z (np_round y) - y) <= 1 # 2)%Q.
Proof.
  pose proof (floor_bounds y) as [Hlo Hhi].
  apply Qabs_Qle_condition.
  destruct (np_round_cases y) as [[H E] | [[H E] | [H [_ [E | E]]]]];
    rewrite E; try rewrite inject_Z_plus; q_consts; split; lra.
Qed.

Lemma np_round_interval (y : Q) :
  (y - (1 # 2) <= inject_Z (np_round y) <= y + (1 # 2))%Q.
Proof.
  pose proof (np_round_error y) as H.
  apply Qabs_Qle_condition in H. destruct H. split; lra.
Qed.

(** At the exact half-way point the even neighbour is taken. *)
Lemma np_round_tie_even (y : Q) :
  (Qabs (inject_Z (np_round y) - y) == 1 # 2)%Q -> Z.even (np_round y) = true.
Proof.
  intro Hd.
  pose proof (floor_bounds y) as [Hlo Hhi].
  destruct (np_round_cases y) as [[H E] | [[H E] | [H [Ev _]]]].
  - exfalso. rewrite E in Hd.
    rewrite Qabs_neg in Hd by lra. lra.
  - exfalso. rewrite E, inject_Z_plus in Hd. q_consts.
    rewrite Qabs_pos in Hd by lra. lra.
  - exact Ev.
Qed.

#[export] Instance np_round_comp : Proper (Qeq ==> eq) np_round.
Proof.
  intros x y E. unfold np_round.
  rewrite (Qfloor_comp x y E).
  assert (E' : (x - inject_Z (Qfloor y) == y - inject_Z (Qfloor y))%Q)
    by (rewrite E; reflexivity).
  rewrite (Qcompare_comp _ _ E' _ _ (Qeq_refl (1 # 2))). reflexivity.
Qed.

(** An integer is left alone. *)
Lemma np_round_Z (z : Z) : np_round (inject_Z z) = z.
Proof.
  unfold np_round. rewrite Qfloor_Z.
  replace (inject_Z z - inject_Z z ?= 1 # 2)%Q with Lt; [reflexivity|].
  symmetry. apply (proj1 (Qlt_alt _ _)). lra.
Qed.

Lemma half_step (a b : Z) : (inject_Z a < inject_Z b + 1)%Q -> a <= b.
Proof.
  intro H. apply Z.lt_succ_r. rewrite Zlt_Qlt.
  unfold Z.succ. rewrite inject_Z_plus. q_consts. exact H.
Qed.

(** Everything below [b + 1/2] rounds to at most [b]. *)
Lemma np_round_upper (y : Q) (b : Z) :
  (y < inject_Z b + (1 # 2))%Q -> np_round y <= b.
Proof.
  intro H. pose proof (np_round_interval y) as [_ Hu].
  apply half_step. lra.
Qed.

(** Everything above [a - 1/2] rounds to at least [a]. *)
Lemma np_round_lower (y : Q) (a : Z) :
  (inject_Z a - (1 # 2) < y)%Q -> a <= np_round y.
Proof.
  intro H. pose proof (np_round_interval y) as [Hl _].
  apply half_step. lra.
Qed.

(** Rounding is monotone. *)
Lemma np_round_monotone (x y : Q) : (x <= y)%Q -> np_round x <= np_round y.
Proof.
  intro Hxy.
  destruct (Qlt_le_dec x y) as [Hlt | Hge].
  - pose proof (np_round_interval x) as [_ Hx].
    pose proof (np_round_interval y) as [Hy _].
    apply half_step. lra.
  - assert (E : (x == y)%Q) by lra.
    rewrite E. lia.
Qed.

(** ** The scale *)

Lemma scale_of_pow (fb : N) : scale_of fb = 2 ^ Z.of_N fb.
Proof. unfold scale_of. apply Z.shiftl_1_l. Qed.

Lemma scale_of_pos (fb : N) : 0 < scale_of fb.
Proof. rewrite scale_of_pow. apply Z.pow_pos_nonneg; lia. Qed.

Lemma scale_of_posQ (fb : N) : (0 < inject_Z (scale_of fb))%Q.
Proof.
  change 0%Q with (inject_Z 0). rewrite <- Zlt_Qlt. apply scale_of_pos.
Qed.

Lemma SCALE_value : SCALE = 32768.
Proof. reflexivity. Qed.


(** ** Casts and clipping inside the 16-bit range *)

Lemma in_int16_iff (z : Z) : in_int16 z = true <-> -32768 <= z <= 32767.
Proof. unfold in_int16. rewrite andb_true_iff, !Z.leb_le. tauto. Qed.

Lemma in_int32_iff (z : Z) :
  in_int32 z = true <-> -2147483648 <= z <= 2147483647.
Proof. unfold in_int32. rewrite andb_true_iff, !Z.leb_le. tauto. Qed.

Lemma wrap16_id (z : Z) : -32768 <= z <= 32767 -> wrap16 z = z.
Proof. intro H. unfold wrap16. rewrite Z.mod_small; lia. Qed.

Lemma np_clip_range (z lo hi : Z) : lo <= hi -> lo <= np_clip z lo hi <= hi.
Proof. unfold np_clip. lia. Qed.

Lemma np_clip_id (z lo hi : Z) : lo <= z <= hi -> np_clip z lo hi = z.
Proof. unfold np_clip. lia. Qed.

Section Quantizer_facts.
Context {P : Platform}.

Lemma astype_int32_id (z : Z) :
  -2147483648 <= z <= 2147483647 -> astype_int32 z = z.
Proof.
  intro H. unfold astype_int32.
  apply in_int32_iff in H. rewrite H. reflexivity.
Qed.

Lemma float_astype_int16_id (z : Z) :
  -32768 <= z <= 32767 -> float_astype_int16 z = z.
Proof.
  intro H. unfold float_astype_int16.
  apply in_int16_iff in H. rewrite H. reflexivity.
Qed.

(** The quantizer as one expression: the clamp of the 32-bit value. *)
Lemma quantize_coeff_clip (fb : N) (x : Q) :
  quantize_coeff fb x =
  np_clip (astype_int32 (np_round (x * inject_Z (scale_of fb)))) (-32768) 32767.
Proof.
  unfold quantize_coeff. cbv zeta.
  apply wrap16_id. apply np_clip_range. lia.
Qed.

Lemma quantize_coeff_range (fb : N) (x : Q) :
  -32768 <= quantize_coeff fb x <= 32767.
Proof. rewrite quantize_coeff_clip. apply np_clip_range. lia. Qed.

(** Inside the 32-bit range the cast is exact. *)
Lemma quantize_coeff_int32 (fb : N) (x : Q) :
  -2147483648 <= np_round (x * inject_Z (scale_of fb)) <= 2147483647 ->
  quantize_coeff fb x =
  np_clip (np_round (x * inject_Z (scale_of fb))) (-32768) 32767.
Proof.
  intro H. rewrite quantize_coeff_clip, astype_int32_id by exact H.
  reflexivity.
Qed.

(** Inside the 16-bit range nothing but the rounding happens. *)
Lemma quantize_coeff_exact (fb : N) (x : Q) :
  -32768 <= np_round (x * inject_Z (scale_of fb)) <= 32767 ->
  quantize_coeff fb x = np_round (x * inject_Z (scale_of fb)).
Proof.
  intro H. rewrite quantize_coeff_int32 by lia. apply np_clip_id. exact H.
Qed.
End Quantizer_facts.

(** ** The harness conversion *)

Lemma np_clip_float_cases (x b : Q) :
  (0 <= b)%Q ->
  ((x < - b)%Q /\ (np_clip_float x (- b) b == - b)%Q) \/
  ((- b <= x <= b)%Q /\ (np_clip_float x (- b) b == x)%Q) \/
  ((b < x)%Q /\ (np_clip_float x (- b) b == b)%Q).
Proof.
  intro Hb. unfold np_clip_float.
  destruct (Q.max_spec x (- b)) as [[H1 E1] | [H1 E1]];
    destruct (Q.min_spec (Qmax x (- b)) b) as [[H2 E2] | [H2 E2]];
    rewrite E2; rewrite ?E1 in *.
  - left. split; [lra | reflexivity].
  - left. split; lra.
  - right; left. split; [lra | reflexivity].
  - destruct (Qlt_le_dec b x) as [Hlt | Hle].
    + right; right. split; [exact Hlt | reflexivity].
    + right; left. split; lra.
Qed.

Lemma clip_bound_nonneg : (0 <= clip_bound)%Q.
Proof. unfold clip_bound. lra. Qed.

Lemma np_round_clip_bound : np_round (clip_bound * inject_Z SCALE) = 32767.
Proof. vm_compute. reflexivity. Qed.

Lemma np_round_neg_clip_bound :
  np_round (- clip_bound * inject_Z SCALE) = -32767.
Proof. vm_compute. reflexivity. Qed.

Section Harness_facts.
Context {P : Platform}.

(** The clipped, scaled and rounded sample never leaves [-32767, 32767],
    so the 16-bit store is exact. *)
Lemma float_to_q15_round (x : Q) :
  float_to_q15 x =
    np_round (np_clip_float x (- clip_bound) clip_bound * inject_Z SCALE) /\
  -32767 <= float_to_q15 x <= 32767.
Proof.
  unfold float_to_q15. cbv zeta.
  set (c := np_clip_float x (- clip_bound) clip_bound).
  assert (Hc : (- clip_bound <= c <= clip_bound)%Q).
  { destruct (np_clip_float_cases x clip_bound clip_bound_nonneg)
      as [[_ E] | [[H E] | [_ E]]]; fold c in E; rewrite E;
      pose proof clip_bound_nonneg; split; lra. }
  assert (Hs : (0 <= inject_Z SCALE)%Q) by (vm_compute; discriminate).
  assert (Hr : -32767 <= np_round (c * inject_Z SCALE) <= 32767).
  { rewrite <- np_round_clip_bound, <- np_round_neg_clip_bound.
    split; apply np_round_monotone; apply Qmult_le_compat_r;
      solve [apply Hc | exact Hs]. }
  rewrite float_astype_int16_id by lia. split; [reflexivity | exact Hr].
Qed.
End Harness_facts.


(** ** C10: the harness never produces -32768 *)

Section Harness_range.
Context {P : Platform}.

(** C10.  For every input [x], the sample [float_to_q15 x] lies in
    [-32767, 32767]: the input is clipped to [-0.999969, 0.999969] before
    it is scaled and rounded, so the most negative 16-bit word, -32768, is
    never produced. *)
Theorem float_to_q15_symmetric_range (x : Q) :
  -32767 <= float_to_q15 x <= 32767 /\ float_to_q15 x <> -32768.
Proof.
  destruct (float_to_q15_round x) as [_ H]. split; [exact H | lia].
Qed.
End Harness_range.

(** ** C1: the round trip through the fixed-point representation *)

Section Round_trip.
Context {P : Platform}.



End Round_trip.


(** ** C3: saturation *)

Section Saturation.
Context {P : Platform}.

Lemma design_saturates (fb : N) (x : Q) :
  (Qabs (x * inject_Z (scale_of fb)) <= 2147483647)%Q ->
  (32768 < Qabs (x * inject_Z (scale_of fb)))%Q ->
  ((x < 0)%Q -> quantize_coeff fb x = -32768) /\
  ((0 < x)%Q -> quantize_coeff fb x = 32767).
Proof.
  set (s := inject_Z (scale_of fb)).
  intros H32 Hbig.
  assert (Hs : (0 < s)%Q) by apply scale_of_posQ.
  apply Qabs_Qle_condition in H32. destruct H32 as [Hlo Hhi].
  assert (Hr : -2147483648 <= np_round (x * s) <= 2147483647).
  { split; [apply np_round_lower | apply np_round_upper];
      change (inject_Z (-2147483648)) with (-2147483648 # 1)%Q;
      change (inject_Z 2147483647) with (2147483647 # 1)%Q; lra. }
  split; intro Hx.
  - assert (Hxs : (x * s <= 0)%Q).
    { setoid_replace (x * s)%Q with (- (- x * s))%Q by ring.
      assert (0 <= - x * s)%Q by (apply Qmult_le_0_compat; lra). lra. }
    rewrite Qabs_neg in Hbig by exact Hxs.
    assert (np_round (x * s) <= -32768).
    { apply np_round_upper.
      change (inject_Z (-32768)) with (-32768 # 1)%Q. lra. }
    rewrite quantize_coeff_int32 by exact Hr. fold s. unfold np_clip. lia.
  - assert (Hxs : (0 <= x * s)%Q) by (apply Qmult_le_0_compat; lra).
    rewrite Qabs_pos in Hbig by exact Hxs.
    assert (32768 <= np_round (x * s)).
    { apply np_round_lower.
      change (inject_Z 32768) with (32768 # 1)%Q. lra. }
    rewrite quantize_coeff_int32 by exact Hr. fold s. unfold np_clip. lia.
Qed.

Lemma harness_saturates (x : Q) :
  (32768 < Qabs (x * inject_Z SCALE))%Q ->
  ((x < 0)%Q -> float_to_q15 x = -32767) /\
  ((0 < x)%Q -> float_to_q15 x = 32767).
Proof.
  intro Hbig.
  destruct (float_to_q15_round x) as [E _].
  change (inject_Z SCALE) with (32768 # 1)%Q in Hbig.
  destruct (np_clip_float_cases x clip_bound clip_bound_nonneg)
    as [[Hc Ec] | [[Hc Ec] | [Hc Ec]]]; unfold clip_bound in Hc.
  - split; intro Hx; [| exfalso; lra].
    rewrite E, Ec. apply np_round_neg_clip_bound.
  - exfalso. revert Hbig. apply Qle_not_lt.
    apply Qabs_Qle_condition. split; lra.
  - split; intro Hx; [exfalso; lra |].
    rewrite E, Ec. apply np_round_clip_bound.
Qed.

(** C3, as the code has it.  A value whose scaled magnitude exceeds
    [2 ^ 15] saturates and never wraps:
    the coefficient quantizer returns exactly -32768 or 32767, by sign,
    as long as the scaled magnitude fits a 32-bit integer; the harness
    conversion [float_to_q15] returns -32767 or 32767, by sign.  The
    literal [0.999970] at 15 fractional bits gives 32767 through both. *)
Theorem saturation_boundaries :
  (forall (fb : N) (x : Q),
      (Qabs (x * inject_Z (scale_of fb)) <= 2147483647)%Q ->
      (32768 < Qabs (x * inject_Z (scale_of fb)))%Q ->
      ((x < 0)%Q -> quantize_coeff fb x = -32768) /\
      ((0 < x)%Q -> quantize_coeff fb x = 32767)) /\
  (forall x : Q,
      (32768 < Qabs (x * inject_Z SCALE))%Q ->
      ((x < 0)%Q -> float_to_q15 x = -32767) /\
      ((0 < x)%Q -> float_to_q15 x = 32767)) /\
  quantize_coeff 15 binary64_0_99997 = 32767 /\
  float_to_q15 binary64_0_99997 = 32767.
Proof.
  split; [exact design_saturates |].
  split; [exact harness_saturates |].
  split.
  - rewrite quantize_coeff_exact; vm_compute; try reflexivity.
    split; discriminate.
  - destruct (float_to_q15_round binary64_0_99997) as [E _].
    rewrite E. vm_compute. reflexivity.
Qed.
End Saturation.

Lemma saturation_boundaries_witness :
  quantize_coeff (P := x86_64) 15 2 = 32767 /\
  quantize_coeff (P := x86_64) 15 (-2) = -32768 /\
  float_to_q15 (P := x86_64) 2 = 32767 /\
  float_to_q15 (P := x86_64) (-2) = -32767.
Proof.
  destruct (saturation_boundaries (P := x86_64)) as [Hd [Hh _]].
  assert (A1 : (Qabs (2 * inject_Z (scale_of 15)) <= 2147483647)%Q)
    by (vm_compute; discriminate).
  assert (A2 : (32768 < Qabs (2 * inject_Z (scale_of 15)))%Q)
    by (vm_compute; reflexivity).
  assert (B1 : (Qabs (-2 * inject_Z (scale_of 15)) <= 2147483647)%Q)
    by (vm_compute; discriminate).
  assert (B2 : (32768 < Qabs (-2 * inject_Z (scale_of 15)))%Q)
    by (vm_compute; reflexivity).
  assert (Pos : (0 < 2)%Q) by reflexivity.
  assert (Neg : (-2 < 0)%Q) by reflexivity.
  split; [exact (proj2 (Hd 15%N 2%Q A1 A2) Pos) |].
  split; [exact (proj1 (Hd 15%N (-2)%Q B1 B2) Neg) |].
  split; [exact (proj2 (Hh 2%Q A2) Pos) | exact (proj1 (Hh (-2)%Q B2) Neg)].
Defined.

(** On the x86-64 instance the restriction to the 32-bit range is needed:
    [65536] scales to [2 ^ 31], and the clamp then sees the most negative
    32-bit integer. *)
Example beyond_int32_x86_64 : quantize_coeff (P := x86_64) 15 65536 = -32768.
Proof. vm_compute. reflexivity. Qed.

(** C3, as the specification states it, fails on the harness conversion:
    [-2] has scaled magnitude 65536, above [2 ^ 15], and is stored as
    -32767, not as the boundary -32768. *)
Lemma float_to_q15_negative_boundary :
  (32768 < Qabs (-2 * inject_Z SCALE))%Q /\
  float_to_q15 (P := x86_64) (-2) = -32767 /\
  float_to_q15 (P := x86_64) (-2) <> -32768.
Proof.
  split; [vm_compute; reflexivity |].
  split; [vm_compute; reflexivity | vm_compute; discriminate].
Qed.

(** ** C4: round-half-to-even *)

Section Rounding_mode.
Context {P : Platform}.

Lemma design_rounds_half_even (fb : N) (x : Q) :
  (Qabs (x * inject_Z (scale_of fb)) <= 32767)%Q ->
  (Qabs (inject_Z (quantize_coeff fb x) - x * inject_Z (scale_of fb))
     <= 1 # 2)%Q /\
  ((Qabs (inject_Z (quantize_coeff fb x) - x * inject_Z (scale_of fb))
      == 1 # 2)%Q -> Z.even (quantize_coeff fb x) = true).
Proof.
  intro Hx. apply Qabs_Qle_condition in Hx. destruct Hx as [Hlo Hhi].
  assert (Hr : -32768 <= np_round (x * inject_Z (scale_of fb)) <= 32767).
  { split; [apply np_round_lower | apply np_round_upper];
      change (inject_Z (-32768)) with (-32768 # 1)%Q;
      change (inject_Z 32767) with (32767 # 1)%Q; lra. }
  rewrite quantize_coeff_exact by exact Hr.
  split; [apply np_round_error | apply np_round_tie_even].
Qed.

Lemma harness_rounds_half_even (x : Q) :
  (Qabs x <= clip_bound)%Q ->
  (Qabs (inject_Z (float_to_q15 x) - x * inject_Z SCALE) <= 1 # 2)%Q /\
  ((Qabs (inject_Z (float_to_q15 x) - x * inject_Z SCALE) == 1 # 2)%Q ->
   Z.even (float_to_q15 x) = true).
Proof.
  intro Hx. apply Qabs_Qle_condition in Hx.
  destruct (float_to_q15_round x) as [E _].
  assert (Ec : (np_clip_float x (- clip_bound) clip_bound == x)%Q).
  { destruct (np_clip_float_cases x clip_bound clip_bound_nonneg)
      as [[Hc Ec] | [[Hc Ec] | [Hc Ec]]]; [exfalso; lra | exact Ec |
      exfalso; lra]. }
  rewrite E, Ec.
  split; [apply np_round_error | apply np_round_tie_even].
Qed.

(** C4.  Quantization rounds the scaled value to the nearest integer and
    resolves a tie to the even integer: the result is within one half of
    the scaled value, and even when exactly one half away.  With 3
    fractional bits (scale 8) the coefficients [0.1, 0.2, 0.4, 0.2, 0.1]
    quantize to [1, 2, 3, 2, 1]; the ties 0.5, 1.5, 2.5, -0.5, -1.5,
    -2.5 go to 0, 2, 2, 0, -2, -2. *)
Theorem quantize_round_half_even :
  (forall (fb : N) (x : Q),
      (Qabs (x * inject_Z (scale_of fb)) <= 32767)%Q ->
      (Qabs (inject_Z (quantize_coeff fb x) - x * inject_Z (scale_of fb))
         <= 1 # 2)%Q /\
      ((Qabs (inject_Z (quantize_coeff fb x) - x * inject_Z (scale_of fb))
          == 1 # 2)%Q -> Z.even (quantize_coeff fb x) = true)) /\
  (forall x : Q,
      (Qabs x <= clip_bound)%Q ->
      (Qabs (inject_Z (float_to_q15 x) - x * inject_Z SCALE) <= 1 # 2)%Q /\
      ((Qabs (inject_Z (float_to_q15 x) - x * inject_Z SCALE) == 1 # 2)%Q ->
       Z.even (float_to_q15 x) = true)) /\
  quantize 3 [binary64_0_1; binary64_0_2; binary64_0_4;
              binary64_0_2; binary64_0_1] = [1; 2; 3; 2; 1] /\
  quantize 3 [1 # 10; 2 # 10; 4 # 10; 2 # 10; 1 # 10]%Q = [1; 2; 3; 2; 1] /\
  quantize 0 [1 # 2; 3 # 2; 5 # 2; - (1 # 2); - (3 # 2); - (5 # 2)]%Q
    = [0; 2; 2; 0; -2; -2].
Proof.
  split; [exact design_rounds_half_even |].
  split; [exact harness_rounds_half_even |].
  unfold quantize. cbn [map].
  repeat split;
    repeat (rewrite quantize_coeff_exact;
            [| vm_compute; split; discriminate]);
    vm_compute; reflexivity.
Qed.
End Rounding_mode.

Lemma quantize_round_half_even_witness :
  (Qabs (inject_Z (quantize_coeff (P := x86_64) 0 (5 # 2))
         - (5 # 2) * inject_Z (scale_of 0)) <= 1 # 2)%Q /\
  Z.even (quantize_coeff (P := x86_64) 0 (5 # 2)) = true /\
  Z.even (float_to_q15 (P := x86_64) (5 # 65536)) = true.
Proof.
  destruct (quantize_round_half_even (P := x86_64)) as [Hd [Hh _]].
  assert (H0 : (Qabs ((5 # 2) * inject_Z (scale_of 0)) <= 32767)%Q)
    by (vm_compute; discriminate).
  assert (H1 : (Qabs (5 # 65536) <= clip_bound)%Q)
    by (vm_compute; discriminate).
  destruct (Hd 0%N (5 # 2)%Q H0) as [He Ht].
  destruct (Hh (5 # 65536)%Q H1) as [_ Ht'].
  split; [exact He |].
  split; [apply Ht | apply Ht']; vm_compute; reflexivity.
Defined.

(** ** C7: saturation is silent *)

Section Saturation_metric.
Context {P : Platform}.

Lemma quantize_length (fb : N) (xs : list Q) :
  List.length (quantize fb xs) = List.length xs.
Proof. unfold quantize. apply length_map. Qed.

Lemma quantize_nth (fb : N) (xs : list Q) (i : nat) :
  (i < List.length xs)%nat ->
  nth i (quantize fb xs) 0 =
  np_clip (astype_int32 (np_round (nth i xs 0%Q * inject_Z (scale_of fb))))
          (-32768) 32767.
Proof.
  intro Hi. unfold quantize.
  rewrite (nth_indep _ 0 (quantize_coeff fb 0%Q))
    by (rewrite length_map; exact Hi).
  rewrite map_nth. apply quantize_coeff_clip.
Qed.

Lemma scaled_back (fb : N) (z : Z) :
  (inject_Z z / inject_Z (scale_of fb) * inject_Z (scale_of fb)
   == inject_Z z)%Q.
Proof. pose proof (scale_of_posQ fb). field. lra. Qed.

Lemma quantize_coeff_of_scaled (fb : N) (z : Z) :
  -2147483648 <= z <= 2147483647 ->
  quantize_coeff fb (inject_Z z / inject_Z (scale_of fb))
  = np_clip z (-32768) 32767.
Proof.
  intro Hz.
  assert (E : np_round (inject_Z z / inject_Z (scale_of fb)
                        * inject_Z (scale_of fb)) = z)
    by (rewrite scaled_back; apply np_round_Z).
  rewrite quantize_coeff_int32; rewrite E; [reflexivity | exact Hz].
Qed.

Lemma clamped_of_scaled (fb : N) (z : Z) :
  -2147483648 <= z <= 2147483647 ->
  clamped fb (inject_Z z / inject_Z (scale_of fb))
  = negb (np_clip z (-32768) 32767 =? z).
Proof.
  intro Hz. unfold clamped. cbv zeta.
  rewrite scaled_back, np_round_Z, astype_int32_id by exact Hz.
  reflexivity.
Qed.

Lemma quantize_array_ok (frac_bits : Z) (xs : list Q) :
  0 <= frac_bits <= 1023 ->
  quantize_array frac_bits xs = Ok (quantize (Z.to_N frac_bits) xs).
Proof.
  intros [Hlo Hhi]. unfold quantize_array.
  assert (A : (frac_bits <? 0) = false) by (apply Z.ltb_ge; exact Hlo).
  assert (B : (1024 <=? frac_bits) = false) by (apply Z.leb_gt; lia).
  rewrite A, B. reflexivity.
Qed.

Lemma quantize_array_raises (frac_bits : Z) (xs : list Q) (e : exception) :
  quantize_array frac_bits xs = Raise e ->
  (frac_bits < 0 /\ e = ValueError) \/ (1024 <= frac_bits /\ e = OverflowError).
Proof.
  unfold quantize_array.
  destruct (frac_bits <? 0) eqn:A.
  - intro H. injection H as <-. left. split; [apply Z.ltb_lt, A | reflexivity].
  - destruct (1024 <=? frac_bits) eqn:B; [| discriminate].
    intro H. injection H as <-. right.
    split; [apply Z.leb_le, B | reflexivity].
Qed.

(** C7, as the code has it.  For a bit count from 0 to 1023 the quantizer
    returns, for every input and without raising, an array of the same
    length whose elements are the clamped 32-bit values, all inside the
    16-bit range.  When it raises, the bit count alone is the reason:
    a negative one gives [ValueError], one from 1024 on [OverflowError],
    whatever the values are, so saturation is never an error.  It records
    no saturation count: its result does not determine how many values
    were clamped. *)
Theorem quantize_saturates_silently :
  (forall (frac_bits : Z) (xs : list Q),
      0 <= frac_bits <= 1023 ->
      exists b_q,
        quantize_array frac_bits xs = Ok b_q /\
        List.length b_q = List.length xs /\
        Forall (fun q => -32768 <= q <= 32767) b_q /\
        forall i, (i < List.length xs)%nat ->
          nth i b_q 0 =
          np_clip
            (astype_int32
               (np_round (nth i xs 0%Q
                          * inject_Z (scale_of (Z.to_N frac_bits)))))
            (-32768) 32767) /\
  (forall (frac_bits : Z) (xs : list Q) (e : exception),
      quantize_array frac_bits xs = Raise e ->
      ((frac_bits < 0 /\ e = ValueError) \/
       (1024 <= frac_bits /\ e = OverflowError)) /\
      forall ys : list Q, quantize_array frac_bits ys = Raise e) /\
  (forall frac_bits : Z,
      0 <= frac_bits <= 1023 ->
      ~ exists count : list Z -> nat,
          forall (xs : list Q) (b_q : list Z),
            quantize_array frac_bits xs = Ok b_q ->
            count b_q = spec_saturation_count (Z.to_N frac_bits) xs).
Proof.
  split; [| split].
  - intros frac_bits xs Hfb.
    exists (quantize (Z.to_N frac_bits) xs).
    split; [apply quantize_array_ok, Hfb |].
    split; [apply quantize_length |]. split.
    + unfold quantize. apply Forall_map, Forall_forall.
      intros x _. apply quantize_coeff_range.
    + intro i. apply quantize_nth.
  - intros frac_bits xs e H. split; [exact (quantize_array_raises _ _ _ H) |].
    intro ys. unfold quantize_array in *.
    destruct (frac_bits <? 0); [exact H |].
    destruct (1024 <=? frac_bits); [exact H | discriminate].
  - intros frac_bits Hfb [count Hcount].
    set (fb := Z.to_N frac_bits) in *.
    pose proof (Hcount [(inject_Z 32767 / inject_Z (scale_of fb))%Q] _
                  (quantize_array_ok _ _ Hfb)) as H1.
    pose proof (Hcount [(inject_Z 32768 / inject_Z (scale_of fb))%Q] _
                  (quantize_array_ok _ _ Hfb)) as H2.
    fold fb in H1, H2.
    unfold quantize, spec_saturation_count in H1, H2. cbn [map filter] in H1, H2.
    rewrite quantize_coeff_of_scaled, clamped_of_scaled in H1, H2 by lia.
    vm_compute in H1, H2. congruence.
Qed.
End Saturation_metric.

Lemma quantize_saturates_silently_witness :
  exists b_q,
    quantize_array (P := x86_64) 15 [1 # 2; 3; -3]%Q = Ok b_q /\
    List.length b_q = 3%nat /\
    Forall (fun q => -32768 <= q <= 32767) b_q.
Proof.
  destruct (proj1 (quantize_saturates_silently (P := x86_64))
              15 [1 # 2; 3; -3]%Q) as (b_q & E & Hlen & Hrange & _).
  - lia.
  - exists b_q. split; [exact E |]. split; [exact Hlen | exact Hrange].
Defined.

(** C7, as the specification states it, fails: at 15 fractional bits the
    inputs [32767/32768] (kept) and [1] (clamped) give the same quantizer
    result, so nothing in that result is the number of clamped values. *)
Lemma quantize_hides_saturation :
  quantize (P := x86_64) 15 [32767 # 32768]%Q = [32767] /\
  quantize (P := x86_64) 15 [1%Q] = [32767] /\
  spec_saturation_count (P := x86_64) 15 [32767 # 32768]%Q = 0%nat /\
  spec_saturation_count (P := x86_64) 15 [1%Q] = 1%nat.
Proof. repeat split; vm_compute; reflexivity. Qed.

(** ** Hexadecimal digits *)

Lemma hex_digit_cases (d : Z) (Q : ascii -> Prop) :
  Forall Q upper_hex_alphabet -> Q (hex_digit d).
Proof.
  intro H. rewrite Forall_forall in H. apply H.
  destruct d as [| p | p]; try (vm_compute; tauto).
  do 4 (try destruct p as [p | p |]); vm_compute; tauto.
Qed.

Lemma hex_digit_upper (d : Z) : In (hex_digit d) upper_hex_alphabet.
Proof.
  apply hex_digit_cases. apply Forall_forall. intros c Hc. exact Hc.
Qed.

Lemma hex_digit_not_space (d : Z) : is_space (hex_digit d) = false.
Proof. apply hex_digit_cases. repeat constructor. Qed.

Lemma hex_digit_not_newline (d : Z) : Ascii.eqb (hex_digit d) newline = false.
Proof. apply hex_digit_cases. repeat constructor. Qed.

Lemma hex_value_digit (d : Z) : 0 <= d < 16 -> hex_value (hex_digit d) = Some d.
Proof.
  intro H.
  assert (C : d = 0 \/ d = 1 \/ d = 2 \/ d = 3 \/ d = 4 \/ d = 5 \/ d = 6 \/
              d = 7 \/ d = 8 \/ d = 9 \/ d = 10 \/ d = 11 \/ d = 12 \/
              d = 13 \/ d = 14 \/ d = 15) by lia.
  repeat (destruct C as [C | C]; [subst d; reflexivity |]).
  subst d. reflexivity.
Qed.

(** ** The four digits of a 16-bit value *)

Lemma hex_digits_last (fuel : nat) (v : Z) (acc : string) :
  0 <= v < 16 ->
  hex_digits (S fuel) v acc = String (hex_digit (v mod 16)) acc.
Proof.
  intro H. cbn [hex_digits]. rewrite Z.div_small by exact H. reflexivity.
Qed.

Lemma hex_digits_more (fuel : nat) (v : Z) (acc : string) :
  16 <= v ->
  hex_digits (S fuel) v acc =
  hex_digits fuel (v / 16) (String (hex_digit (v mod 16)) acc).
Proof.
  intro H. cbn [hex_digits].
  assert (Hq : v / 16 <> 0)
    by (intro E; apply Z.div_small_iff in E; lia).
  apply Z.eqb_neq in Hq. rewrite Hq. reflexivity.
Qed.

Lemma log2_fuel (v : Z) (k : nat) :
  2 ^ Z.of_nat k <= v -> exists n, Z.to_nat (Z.log2 v) = (k + n)%nat.
Proof.
  intro Hv.
  assert (Z.of_nat k <= Z.log2 v).
  { rewrite <- (Z.log2_pow2 (Z.of_nat k)) by lia.
    apply Z.log2_le_mono. exact Hv. }
  exists (Z.to_nat (Z.log2 v - Z.of_nat k)). lia.
Qed.

(** A 16-bit value is written as exactly its four digits. *)
Lemma format_04X_uint16 (u : Z) :
  0 <= u < 65536 -> format_04X u = four_digits u.
Proof.
  intro Hu. unfold format_04X, format_X, four_digits.
  assert (Hneg : (u <? 0) = false) by (apply Z.ltb_ge; lia).
  rewrite Hneg. cbv zeta.
  destruct (Z_lt_le_dec u 16) as [H1 | H1].
  { rewrite hex_digits_last by lia.
    assert (E : u / 16 = 0) by (apply Z.div_small; lia).
    rewrite E. reflexivity. }
  destruct (log2_fuel u 4 H1) as [n1 E1].
  destruct (Z_lt_le_dec u 256) as [H2 | H2].
  { rewrite E1. cbn [Nat.add].
    rewrite hex_digits_more by lia.
    rewrite hex_digits_last by (split; [apply Z.div_pos | apply Z.div_lt_upper_bound]; lia).
    assert (E : u / 16 / 16 = 0) by (apply Z.div_small; split;
      [apply Z.div_pos | apply Z.div_lt_upper_bound]; lia).
    rewrite E. reflexivity. }
  destruct (log2_fuel u 8 H2) as [n2 E2].
  destruct (Z_lt_le_dec u 4096) as [H3 | H3].
  { rewrite E2. cbn [Nat.add].
    rewrite hex_digits_more by lia.
    rewrite hex_digits_more by (apply Z.div_le_lower_bound; lia).
    rewrite hex_digits_last by (split;
      [ repeat apply Z.div_pos | repeat apply Z.div_lt_upper_bound]; lia).
    assert (E : u / 16 / 16 / 16 = 0) by (apply Z.div_small; split;
      [ repeat apply Z.div_pos | repeat apply Z.div_lt_upper_bound]; lia).
    rewrite E. reflexivity. }
  destruct (log2_fuel u 12 H3) as [n3 E3].
  rewrite E3. cbn [Nat.add].
  rewrite hex_digits_more by lia.
  rewrite hex_digits_more by (apply Z.div_le_lower_bound; lia).
  rewrite hex_digits_more by (repeat apply Z.div_le_lower_bound; lia).
  rewrite hex_digits_last by (split;
    [ repeat apply Z.div_pos | repeat apply Z.div_lt_upper_bound]; lia).
  rewrite (Z.mod_small (u / 16 / 16 / 16)) by (split;
    [ repeat apply Z.div_pos | repeat apply Z.div_lt_upper_bound]; lia).
  reflexivity.
Qed.

Lemma nibble_div (c k : Z) : 0 <= k -> nibble c k = (c / 2 ^ (4 * k)) mod 16.
Proof.
  intro Hk. unfold nibble.
  rewrite Z.shiftr_div_pow2 by lia.
  change 15 with (Z.ones 4). rewrite Z.land_ones by lia. reflexivity.
Qed.

(** The digits written are the nibbles of the two's-complement pattern. *)
Lemma four_digits_nibbles (c : Z) :
  four_digits (np_uint16 c) =
  String (hex_digit (nibble c 3))
    (String (hex_digit (nibble c 2))
       (String (hex_digit (nibble c 1))
          (String (hex_digit (nibble c 0)) ""))).
Proof.
  unfold four_digits, np_uint16. rewrite !nibble_div by lia.
  change (2 ^ (4 * 3)) with 4096. change (2 ^ (4 * 2)) with 256.
  change (2 ^ (4 * 1)) with 16. change (2 ^ (4 * 0)) with 1.
  assert (E3 : c mod 65536 / 16 / 16 / 16 = (c / 4096) mod 16)
    by (Z.div_mod_to_equations; lia).
  assert (E2 : (c mod 65536 / 16 / 16) mod 16 = (c / 256) mod 16)
    by (Z.div_mod_to_equations; lia).
  assert (E1 : (c mod 65536 / 16) mod 16 = (c / 16) mod 16)
    by (Z.div_mod_to_equations; lia).
  assert (E0 : (c mod 65536) mod 16 = (c / 1) mod 16)
    by (Z.div_mod_to_equations; lia).
  rewrite E3, E2, E1, E0. reflexivity.
Qed.

Lemma np_uint16_range (c : Z) : 0 <= np_uint16 c < 65536.
Proof. unfold np_uint16. apply Z.mod_pos_bound. lia. Qed.

Lemma hex_line_digits (c : Z) :
  hex_line c =
  String (hex_digit (nibble c 3))
    (String (hex_digit (nibble c 2))
       (String (hex_digit (nibble c 1))
          (String (hex_digit (nibble c 0)) (String newline "")))).
Proof.
  unfold hex_line.
  rewrite format_04X_uint16 by apply np_uint16_range.
  rewrite four_digits_nibbles. reflexivity.
Qed.

(** ** Reading the exported text back *)

(** A hexadecimal digit is none of the characters the reader treats
    specially. *)
Lemma hex_digit_plain (d : Z) :
  Ascii.eqb (hex_digit d) carriage_return = false /\
  Ascii.eqb (hex_digit d) "-"%char = false /\
  Ascii.eqb (hex_digit d) "+"%char = false /\
  Ascii.eqb (hex_digit d) "x"%char = false /\
  Ascii.eqb (hex_digit d) "X"%char = false /\
  is_underscore (hex_digit d) = false.
Proof. apply hex_digit_cases. repeat constructor. Qed.

Lemma readlines_hex_line (c : Z) (rest : string) :
  readlines (hex_line c ++ rest) = hex_line c :: readlines rest.
Proof.
  unfold readlines. rewrite hex_line_digits. cbn [append universal_newlines].
  destruct (hex_digit_plain (nibble c 3)) as [E3 _].
  destruct (hex_digit_plain (nibble c 2)) as [E2 _].
  destruct (hex_digit_plain (nibble c 1)) as [E1 _].
  destruct (hex_digit_plain (nibble c 0)) as [E0 _].
  rewrite E3, E2, E1, E0.
  change (Ascii.eqb newline carriage_return) with false. cbn iota.
  cbn [split_lines]. rewrite !hex_digit_not_newline.
  change (Ascii.eqb newline newline) with true. cbn iota. reflexivity.
Qed.

Lemma readlines_export (coeffs : list Z) :
  readlines (export_coeffs_hex coeffs) = map hex_line coeffs.
Proof.
  induction coeffs as [| c rest IH]; [reflexivity |].
  cbn [export_coeffs_hex map]. rewrite readlines_hex_line, IH. reflexivity.
Qed.

Lemma strip_hex_line (c : Z) : strip (hex_line c) = four_digits (np_uint16 c).
Proof.
  rewrite hex_line_digits, four_digits_nibbles.
  unfold strip. cbn [lstrip]. rewrite hex_digit_not_space.
  cbn [rstrip]. change (is_space newline) with true. cbn iota.
  rewrite !hex_digit_not_space. reflexivity.
Qed.

Lemma strip_four_digits (u : Z) : strip (four_digits u) = four_digits u.
Proof.
  unfold four_digits, strip. cbn [lstrip]. rewrite hex_digit_not_space.
  cbn [rstrip]. rewrite !hex_digit_not_space. reflexivity.
Qed.

Lemma hex_body_digit (d : Z) (rest : string) (after : bool) (acc : Z) :
  0 <= d < 16 ->
  hex_body (String (hex_digit d) rest) after acc
  = hex_body rest false (16 * acc + d).
Proof.
  intro Hd. cbn [hex_body].
  destruct (hex_digit_plain d) as (_ & _ & _ & _ & _ & E).
  rewrite E, (hex_value_digit d Hd). reflexivity.
Qed.

(** What [str.strip] returns has nothing left for [int] to skip. *)
Lemma int_space_is_space (c : ascii) :
  is_space c = false -> int_is_space c = false.
Proof.
  destruct c as [[] [] [] [] [] [] [] []]; vm_compute; congruence.
Qed.

Lemma lstrip_head (s : string) :
  lstrip s = "" \/
  exists c rest, lstrip s = String c rest /\ is_space c = false.
Proof.
  induction s as [| c rest IH]; [left; reflexivity |].
  cbn [lstrip]. destruct (is_space c) eqn:E; [exact IH |].
  right. exists c, rest. split; [reflexivity | exact E].
Qed.

Lemma int_rstrip_rstrip (s : string) : int_rstrip (rstrip s) = rstrip s.
Proof.
  induction s as [| c rest IH]; [reflexivity |].
  cbn [rstrip]. destruct (rstrip rest) as [| c' r'] eqn:Er.
  - destruct (is_space c) eqn:E; [reflexivity |].
    cbn [int_rstrip]. rewrite (int_space_is_space c E). reflexivity.
  - cbn [int_rstrip]. cbn [int_rstrip] in IH. rewrite IH. reflexivity.
Qed.

Lemma int_strip_of_strip (s : string) :
  int_rstrip (int_lstrip (strip s)) = strip s.
Proof.
  unfold strip.
  assert (E : int_lstrip (rstrip (lstrip s)) = rstrip (lstrip s)).
  { destruct (lstrip_head s) as [-> | (c & rest & -> & Hc)]; [reflexivity |].
    cbn [rstrip].
    destruct (rstrip rest) as [| c' r'].
    - rewrite Hc. cbn [int_lstrip].
      rewrite (int_space_is_space c Hc). reflexivity.
    - cbn [int_lstrip]. rewrite (int_space_is_space c Hc). reflexivity. }
  rewrite E. apply int_rstrip_rstrip.
Qed.

Lemma int_base16_four_digits (u : Z) :
  0 <= u < 65536 -> int_base16 (four_digits u) = Some u.
Proof.
  intro Hu. unfold int_base16.
  rewrite <- (strip_four_digits u) at 1. rewrite int_strip_of_strip.
  rewrite strip_four_digits.
  unfold four_digits.
  destruct (hex_digit_plain (u / 16 / 16 / 16)) as (_ & M3 & P3 & _ & _ & U3).
  destruct (hex_digit_plain ((u / 16 / 16) mod 16)) as (_ & _ & _ & x2 & X2 & _).
  cbn [drop_sign]. rewrite M3, P3.
  cbn [drop_prefix16]. rewrite x2, X2. cbn [orb]. rewrite andb_false_r.
  cbn [hex_number]. rewrite U3.
  assert (H3 : 0 <= u / 16 / 16 / 16 < 16)
    by (split; [repeat apply Z.div_pos | repeat apply Z.div_lt_upper_bound];
        lia).
  rewrite (hex_body_digit _ _ _ _ H3).
  rewrite !hex_body_digit by (apply Z.mod_pos_bound; lia).
  cbn [hex_body]. f_equal. Z.div_mod_to_equations. lia.
Qed.

Lemma parse_hex_line_export (c : Z) :
  -32768 <= c <= 32767 -> parse_hex_line (hex_line c) = Some c.
Proof.
  intro Hc. unfold parse_hex_line.
  rewrite strip_hex_line, int_base16_four_digits by apply np_uint16_range.
  f_equal. unfold np_uint16.
  destruct (Z_lt_le_dec c 0) as [Hn | Hp].
  - assert (E : c mod 65536 = c + 65536) by (Z.div_mod_to_equations; lia).
    rewrite E.
    assert (G : (c + 65536 >? 32767) = true) by (apply Z.gtb_lt; lia).
    rewrite G. lia.
  - rewrite Z.mod_small by lia.
    assert (G : (c >? 32767) = false) by (rewrite Z.gtb_ltb; apply Z.ltb_ge; lia).
    rewrite G. reflexivity.
Qed.

(** ** C2: the hex round trip *)

(** C2.  For every coefficient array whose elements lie in the 16-bit range
    [-32768, 32767] (the word width the exporter and the importer are
    written for), importing the text produced by [export_coeffs_hex]
    succeeds and yields exactly the array. *)
Theorem import_export_hex (coeffs : list Z) :
  Forall (fun c => -32768 <= c <= 32767) coeffs ->
  import_coeffs_hex (export_coeffs_hex coeffs) = Some coeffs.
Proof.
  intro H. unfold import_coeffs_hex. rewrite readlines_export.
  induction H as [| c rest Hc _ IH]; [reflexivity |].
  cbn [map parse_hex_lines].
  rewrite parse_hex_line_export by exact Hc. rewrite IH. reflexivity.
Qed.

Lemma import_export_hex_witness :
  import_coeffs_hex (export_coeffs_hex [-32768; -1; 0; 291; 32767])
  = Some [-32768; -1; 0; 291; 32767].
Proof.
  apply import_export_hex. repeat constructor; discriminate.
Defined.

(** ** C9: the layout of the hex file *)

(** C9.  [export_coeffs_hex] writes one line per coefficient, in index
    order and with no blank line: the lines of the text are the lines of the
    coefficients.  Each line is exactly four characters and a line end; the
    characters are the upper-case hexadecimal digits of the four nibbles of
    the coefficient's two's-complement pattern, most significant first, the
    leading ones zero when the value is small; there is no prefix and no
    separator. *)
Theorem export_hex_layout (coeffs : list Z) :
  readlines (export_coeffs_hex coeffs) = map hex_line coeffs /\
  (forall c : Z,
      hex_line c =
      String (hex_digit (nibble c 3))
        (String (hex_digit (nibble c 2))
           (String (hex_digit (nibble c 1))
              (String (hex_digit (nibble c 0)) (String newline ""))))) /\
  (forall c k : Z,
      In (hex_digit (nibble c k)) upper_hex_alphabet /\
      hex_value (hex_digit (nibble c k)) = Some (nibble c k)).
Proof.
  split; [apply readlines_export |].
  split; [apply hex_line_digits |].
  intros c k. split; [apply hex_digit_upper |].
  apply hex_value_digit. unfold nibble.
  change 15 with (Z.ones 4). rewrite Z.land_ones by lia.
  apply Z.mod_pos_bound. lia.
Qed.

(** ** Symmetry through the quantizer *)

Section Symmetry.
Context {P : Platform} {L : Signal_library}.

Lemma quantize_coeff_comp (fb : N) (x y : Q) :
  (x == y)%Q -> quantize_coeff fb x = quantize_coeff fb y.
Proof. intro E. unfold quantize_coeff. rewrite E. reflexivity. Qed.

(** The quantizer works element by element, so it keeps a symmetric
    array symmetric. *)
Lemma quantize_symmetric (fb : N) (b_float : list Q) :
  (forall i, (i < List.length b_float)%nat ->
     (nth i b_float 0 == nth (List.length b_float - 1 - i) b_float 0)%Q) ->
  forall i, (i < List.length (quantize fb b_float))%nat ->
    nth i (quantize fb b_float) 0 =
    nth (List.length (quantize fb b_float) - 1 - i) (quantize fb b_float) 0.
Proof.
  intros Hsym i Hi. rewrite quantize_length in *.
  unfold quantize.
  rewrite (nth_indep (map _ _) 0 (quantize_coeff fb 0%Q) (n := i))
    by (rewrite length_map; lia).
  rewrite (nth_indep (map _ _) 0 (quantize_coeff fb 0%Q)
             (n := List.length b_float - 1 - i))
    by (rewrite length_map; lia).
  rewrite !map_nth. apply quantize_coeff_comp, Hsym, Hi.
Qed.

End Symmetry.

(** ** C8: the drain phase of the harness *)

Section Drain.
Context {D : Dut}.

Lemma collect_app (d : dut_state) (fir_out : list Z) :
  collect d fir_out = (fir_out ++ valid_sample d)%list.
Proof.
  unfold collect, valid_sample.
  destruct (m_axis_fir_tvalid d); [reflexivity | now rewrite app_nil_r].
Qed.

Lemma flat_map_seq_shift (f : nat -> list Z) (a n : nat) :
  flat_map f (seq (S a) n) = flat_map (fun k => f (S k)) (seq a n).
Proof.
  rewrite <- seq_shift, !flat_map_concat_map, map_map. reflexivity.
Qed.

(** The drain loop clocks [n] times under unchanged pins and appends, in
    cycle order, the output of every cycle whose valid flag is set. *)
Lemma drain_trace (n : nat) (p : Pins) (d : dut_state) (fir_out : list Z) :
  drain n p d fir_out =
  (clock_cycles n p d,
   (fir_out ++
    flat_map (fun k => valid_sample (clock_cycles k p d)) (seq 1 n))%list).
Proof.
  revert d fir_out. induction n as [| n IH]; intros d fir_out.
  - cbn. now rewrite app_nil_r.
  - cbn [drain]. cbv zeta. rewrite IH, collect_app.
    cbn [seq flat_map]. rewrite (flat_map_seq_shift _ 1 n).
    rewrite <- app_assoc. reflexivity.
Qed.

Lemma last_cons_default (l : list Z) (a d : Z) :
  last (a :: l) d = last l a.
Proof.
  revert a d. induction l as [| b l IH]; intros a d; [reflexivity |].
  change (last (a :: b :: l) d) with (last (b :: l) d).
  rewrite (IH b d), (IH b a). reflexivity.
Qed.


End Drain.



(** ** The design function has no guard of its own *)

Section Design_errors.
Context {P : Platform} {L : Signal_library}.

(** Two band edges and a sampling rate that pass the conversions and give
    a Nyquist frequency other than zero bring the design function to the
    library call. *)
Lemma design_reaches_library
    (fs : Z) (fc0 fc1 : Q) (rest : list Q) (numtaps frac_bits : Z)
    (fs_float fc0_float fc1_float : Q) :
  float_of_number (inject_Z fs) = Ok fs_float ->
  float_of_number fc0 = Ok fc0_float ->
  float_of_number fc1 = Ok fc1_float ->
  ~ ((1 # 2) * fs_float == 0)%Q ->
  design_bandpass_fir_filter fs (fc0 :: fc1 :: rest) numtaps frac_bits =
  match firwin numtaps (float_div fc0_float ((1 # 2) * fs_float))
                       (float_div fc1_float ((1 # 2) * fs_float)) with
  | Raise e => Raise e
  | Ok b_float =>
      match quantize_array frac_bits b_float with
      | Raise e => Raise e
      | Ok b_q =>
          match b_q with
          | [] => Raise ValueError
          | _ :: _ => Ok (b_q, dequantize (Z.to_N frac_bits) b_q, b_float)
          end
      end
  end.
Proof.
  intros Hfs H0 H1 Hny. unfold design_bandpass_fir_filter.
  rewrite Hfs. cbn [nth_error]. rewrite H0, H1. cbv zeta.
  destruct (Qeq_bool ((1 # 2) * fs_float) 0) eqn:E.
  - exfalso. apply Hny. apply Qeq_bool_eq. exact E.
  - reflexivity.
Qed.

(** An error of the library call is the error of the design function. *)
Lemma design_propagates_library_error
    (fs : Z) (fc0 fc1 : Q) (rest : list Q) (numtaps frac_bits : Z)
    (fs_float fc0_float fc1_float : Q) (e : exception) :
  float_of_number (inject_Z fs) = Ok fs_float ->
  float_of_number fc0 = Ok fc0_float ->
  float_of_number fc1 = Ok fc1_float ->
  ~ ((1 # 2) * fs_float == 0)%Q ->
  firwin numtaps (float_div fc0_float ((1 # 2) * fs_float))
                 (float_div fc1_float ((1 # 2) * fs_float)) = Raise e ->
  design_bandpass_fir_filter fs (fc0 :: fc1 :: rest) numtaps frac_bits
  = Raise e.
Proof.
  intros Hfs H0 H1 Hny Hfir.
  rewrite (design_reaches_library _ _ _ _ _ _ _ _ _ Hfs H0 H1 Hny), Hfir.
  reflexivity.
Qed.

(** A zero sampling rate fails in the division by the Nyquist
    frequency. *)
Lemma design_zero_rate (fc0 fc0_float : Q) (fc : list Q)
    (numtaps frac_bits : Z) :
  float_of_number fc0 = Ok fc0_float ->
  design_bandpass_fir_filter 0 (fc0 :: fc) numtaps frac_bits
  = Raise ZeroDivisionError.
Proof.
  intro H0. unfold design_bandpass_fir_filter.
  change (float_of_number (inject_Z 0)) with (@Ok Q 0%Q).
  cbn [nth_error]. rewrite H0. reflexivity.
Qed.
End Design_errors.

(** ** Examples *)

Example export_example :
  export_coeffs_hex [-1; 255; 32767; -32768; 291] =
  "FFFF
00FF
7FFF
8000
0123
".
Proof. vm_compute. reflexivity. Qed.

Example import_example :
  import_coeffs_hex "FFFF
00ff
8000
" = Some [-1; 255; -32768].
Proof. vm_compute. reflexivity. Qed.

Example import_malformed :
  import_coeffs_hex "7FFF
zz
" = None.
Proof. vm_compute. reflexivity. Qed.

(** What [int(s, 16)] accepts besides bare digits: a sign, the [0x]
    prefix, single underscores between digits, white space around the
    number; and the line ends of text mode. *)
Example int_base16_examples :
  map int_base16
      ["-1"; "+7f"; "0x7FFF"; "0X_7f_ff"; " 1f "; "7F_FF"; "-0x8000";
       ""; "-"; "0x"; "_1"; "1_"; "1__2"; "- 1"; "0x-1"; "1 2"; "g"]
  = [Some (-1); Some 127; Some 32767; Some 32767; Some 31; Some 32767;
     Some (-32768);
     None; None; None; None; None; None; None; None; None; None].
Proof. vm_compute. reflexivity. Qed.

Example readlines_line_ends :
  readlines
    ("0001" ++ String carriage_return (String newline "")
     ++ "0002" ++ String carriage_return ""
     ++ "0003" ++ String newline "" ++ "0004")
  = ["0001" ++ String newline ""; "0002" ++ String newline "";
     "0003" ++ String newline ""; "0004"].
Proof. vm_compute. reflexivity. Qed.

Example import_signed_and_prefixed :
  import_coeffs_hex
    ("-1" ++ String carriage_return (String newline "")
     ++ "0x8000" ++ String newline "" ++ "7F_FF")
  = Some [-1; -32768; 32767].
Proof. vm_compute. reflexivity. Qed.

(** Conversions to binary64: [0.1], the first integer that is not a
    float, and the integers too large to be one. *)
Example binary64_examples :
  option_map Qred (binary64 (1 # 10))
  = Some (3602879701896397 # 36028797018963968)%Q /\
  option_map Qred (binary64 (inject_Z (2 ^ 53 + 1)))
  = Some (inject_Z (2 ^ 53)) /\
  option_map Qred (binary64 (inject_Z (2 ^ 1024 - 2 ^ 970 - 1)))
  = Some (inject_Z (2 ^ 1024 - 2 ^ 971)) /\
  binary64 (inject_Z (2 ^ 1024 - 2 ^ 970)) = None.
Proof. vm_compute. repeat split. Qed.

Example design_example :
  design_bandpass_fir_filter (P := x86_64) (L := example_library)
    2000 [5; 50]%Q 5 3
  = Ok ([1; 2; 3; 2; 1],
        [1 # 8; 2 # 8; 3 # 8; 2 # 8; 1 # 8]%Q,
        [1 # 10; 2 # 10; 4 # 10; 2 # 10; 1 # 10]%Q) /\
  design_bandpass_fir_filter (P := x86_64) (L := example_library)
    2000 [5; 50]%Q 5 1024
  = Raise OverflowError /\
  design_bandpass_fir_filter (P := x86_64) (L := example_library)
    2000 [5; 50]%Q 5 (-1)
  = Raise ValueError /\
  design_bandpass_fir_filter (P := x86_64) (L := example_library)
    0 [5; 50]%Q 5 15
  = Raise ZeroDivisionError /\
  design_bandpass_fir_filter (P := x86_64) (L := example_library)
    2000 [5]%Q 5 15
  = Raise IndexError.
Proof. vm_compute. repeat split. Qed.

Example float_to_q15_examples :
  map (float_to_q15 (P := x86_64)) [0; 1 # 2; - (1 # 2); 1; -1; 100; -100]%Q
  = [0; 16384; -16384; 32767; -32767; 32767; -32767].
Proof. vm_compute. reflexivity. Qed.

Example impulse_response :
  run_fir (D := example_dut) ([0; 0; 0; 0; 0], false, 0) [8; 0; 0; 0; 0]
  = example_taps.
Proof. vm_compute. reflexivity. Qed.


(* ================================================================== *)
(** * Part III: further properties of the code                         *)
(* ================================================================== *)

(** ** Rounding is determined by its two properties *)

Lemma np_round_unique (y : Q) (z : Z) :
  (Qabs (inject_Z z - y) <= 1 # 2)%Q ->
  ((Qabs (inject_Z z - y) == 1 # 2)%Q -> Z.even z = true) ->
  z = np_round y.
Proof.
  intros Hz Hev.
  pose proof (np_round_interval y) as [Hl Hu].
  pose proof (np_round_tie_even y) as Hr.
  apply Qabs_Qle_condition in Hz. destruct Hz as [Hzl Hzu].
  assert (Hle : z <= np_round y + 1).
  { apply half_step. rewrite inject_Z_plus. q_consts. lra. }
  assert (Hge : np_round y <= z + 1).
  { apply half_step. rewrite inject_Z_plus. q_consts. lra. }
  destruct (Z.eq_dec z (np_round y)) as [E | Hne]; [exact E | exfalso].
  destruct (Z.eq_dec z (np_round y + 1)) as [E1 | Hne1].
  - assert (Ez : (inject_Z z == inject_Z (np_round y) + 1)%Q)
      by (rewrite E1, inject_Z_plus; q_consts; reflexivity).
    assert (E2 : Z.even z = true).
    { apply Hev. rewrite Qabs_pos by lra. lra. }
    assert (E3 : Z.even (np_round y) = true).
    { apply Hr. rewrite Qabs_neg by lra. lra. }
    rewrite E1, Z.even_add, E3 in E2. discriminate.
  - assert (E1 : np_round y = z + 1) by lia.
    assert (Ez : (inject_Z (np_round y) == inject_Z z + 1)%Q)
      by (rewrite E1, inject_Z_plus; q_consts; reflexivity).
    assert (E2 : Z.even z = true).
    { apply Hev. rewrite Qabs_neg by lra. lra. }
    assert (E3 : Z.even (np_round y) = true).
    { apply Hr. rewrite Qabs_pos by lra. lra. }
    rewrite E1, Z.even_add, E2 in E3. discriminate.
Qed.

(** Rounding commutes with negation. *)
Lemma np_round_opp (y : Q) : np_round (- y) = - np_round y.
Proof.
  symmetry. apply np_round_unique.
  - rewrite inject_Z_opp.
    setoid_replace (- inject_Z (np_round y) - - y)%Q
      with (- (inject_Z (np_round y) - y))%Q by ring.
    rewrite Qabs_opp. apply np_round_error.
  - intro H. rewrite Z.even_opp. apply np_round_tie_even.
    rewrite inject_Z_opp in H.
    setoid_replace (- inject_Z (np_round y) - - y)%Q
      with (- (inject_Z (np_round y) - y))%Q in H by ring.
    rewrite Qabs_opp in H. exact H.
Qed.

Lemma np_clip_float_opp (x b : Q) :
  (0 <= b)%Q ->
  (np_clip_float (- x) (- b) b == - np_clip_float x (- b) b)%Q.
Proof.
  intro Hb.
  destruct (np_clip_float_cases x b Hb) as [[H E] | [[H E] | [H E]]];
    destruct (np_clip_float_cases (- x) b Hb) as [[H' E'] | [[H' E'] | [H' E']]];
    rewrite E, E'; lra.
Qed.

Lemma np_clip_float_monotone (x y b : Q) :
  (0 <= b)%Q -> (x <= y)%Q ->
  (np_clip_float x (- b) b <= np_clip_float y (- b) b)%Q.
Proof.
  intros Hb Hxy.
  destruct (np_clip_float_cases x b Hb) as [[H E] | [[H E] | [H E]]];
    destruct (np_clip_float_cases y b Hb) as [[H' E'] | [[H' E'] | [H' E']]];
    rewrite E, E'; lra.
Qed.

Lemma wrap16_range (z : Z) : -32768 <= wrap16 z <= 32767.
Proof.
  unfold wrap16. pose proof (Z.mod_pos_bound (z + 32768) 65536). lia.
Qed.

Lemma SCALE_posQ : (0 < inject_Z SCALE)%Q.
Proof. apply scale_of_posQ. Qed.

(** ** The sample conversions of the harness *)

Section Conversion_laws.
Context {P : Platform}.

(** X1.  [float_to_q15] is an odd function: negating the input negates the
    sample. *)
Theorem float_to_q15_odd (x : Q) : float_to_q15 (- x) = - float_to_q15 x.
Proof.
  destruct (float_to_q15_round x) as [E _].
  destruct (float_to_q15_round (- x)) as [E' _].
  rewrite E, E', (np_clip_float_opp x clip_bound clip_bound_nonneg).
  rewrite <- np_round_opp. apply np_round_comp. ring.
Qed.

(** X2.  [float_to_q15] is non-decreasing. *)
Theorem float_to_q15_monotone (x y : Q) :
  (x <= y)%Q -> float_to_q15 x <= float_to_q15 y.
Proof.
  intro Hxy.
  destruct (float_to_q15_round x) as [E _].
  destruct (float_to_q15_round y) as [E' _].
  rewrite E, E'. apply np_round_monotone.
  apply Qmult_le_compat_r.
  - apply np_clip_float_monotone; [apply clip_bound_nonneg | exact Hxy].
  - pose proof SCALE_posQ. lra.
Qed.

Lemma float_to_q15_inside (x : Q) :
  (Qabs x <= clip_bound)%Q ->
  float_to_q15 x = np_round (x * inject_Z SCALE).
Proof.
  intro Hx. apply Qabs_Qle_condition in Hx.
  destruct (float_to_q15_round x) as [E _]. rewrite E.
  apply np_round_comp.
  destruct (np_clip_float_cases x clip_bound clip_bound_nonneg)
    as [[Hc Ec] | [[Hc Ec] | [Hc Ec]]]; [exfalso; lra | | exfalso; lra].
  rewrite Ec. reflexivity.
Qed.

(** X3.  Converting a sample to float and back returns the sample, except that
    the most negative word comes back as -32767. *)
Theorem float_to_q15_of_q15_to_float (q : Z) :
  -32768 <= q <= 32767 ->
  float_to_q15 (q15_to_float q) = Z.max q (-32767).
Proof.
  intro Hq. unfold q15_to_float. rewrite wrap16_id by exact Hq.
  destruct (Z.eq_dec q (-32768)) as [E | Hn];
    [| destruct (Z.eq_dec q (-32767)) as [E | Hn''];
       [| destruct (Z.eq_dec q 32767) as [E | Hn']]].
  - subst q. destruct (float_to_q15_round (inject_Z (-32768) / inject_Z SCALE))
      as [E _]. rewrite E. vm_compute. reflexivity.
  - subst q. destruct (float_to_q15_round (inject_Z (-32767) / inject_Z SCALE))
      as [E _]. rewrite E. vm_compute. reflexivity.
  - subst q. destruct (float_to_q15_round (inject_Z 32767 / inject_Z SCALE))
      as [E _]. rewrite E. vm_compute. reflexivity.
  - rewrite float_to_q15_inside.
    + unfold SCALE. rewrite scaled_back, np_round_Z. lia.
    + apply Qabs_Qle_condition.
      assert (Hlo : (inject_Z (-32766) <= inject_Z q)%Q)
        by (rewrite <- Zle_Qle; lia).
      assert (Hhi : (inject_Z q <= inject_Z 32766)%Q)
        by (rewrite <- Zle_Qle; lia).
      change (inject_Z (-32766)) with (-32766 # 1)%Q in Hlo.
      change (inject_Z 32766) with (32766 # 1)%Q in Hhi.
      change (inject_Z SCALE) with (32768 # 1)%Q.
      unfold clip_bound.
      assert (E : (inject_Z q / (32768 # 1) == inject_Z q * (1 # 32768))%Q)
        by (field).
      rewrite E. split; lra.
Qed.

(** X4.  [q15_to_float] always lands in [-1, 32767/32768], and on 16-bit words
    it scales exactly: the float times 32768 is the word. *)
Theorem q15_to_float_range (q : Z) :
  (-1 <= q15_to_float q <= 32767 # 32768)%Q /\
  (-32768 <= q <= 32767 -> (q15_to_float q * inject_Z SCALE == inject_Z q)%Q).
Proof.
  split.
  - unfold q15_to_float. pose proof (wrap16_range q) as [Hl Hu].
    rewrite Zle_Qle in Hl, Hu.
    change (inject_Z (-32768)) with (-32768 # 1)%Q in Hl.
    change (inject_Z 32767) with (32767 # 1)%Q in Hu.
    change (inject_Z SCALE) with (32768 # 1)%Q.
    assert (E : (inject_Z (wrap16 q) / (32768 # 1)
                 == inject_Z (wrap16 q) * (1 # 32768))%Q) by field.
    rewrite E. split; lra.
  - intro Hq. unfold q15_to_float, SCALE. rewrite wrap16_id by exact Hq.
    apply scaled_back.
Qed.
End Conversion_laws.

Lemma float_to_q15_monotone_witness :
  float_to_q15 (P := x86_64) (1 # 3) <= float_to_q15 (P := x86_64) (1 # 2).
Proof. apply float_to_q15_monotone. vm_compute. discriminate. Defined.

Lemma float_to_q15_of_q15_to_float_witness :
  float_to_q15 (P := x86_64) (q15_to_float (-12345)) = Z.max (-12345) (-32767).
Proof. apply float_to_q15_of_q15_to_float. lia. Defined.

(** ** The coefficient quantizer *)

Section Quantizer_laws.
Context {P : Platform}.

Lemma quantize_coeff_of_dequantize (fb : N) (q : Z) :
  -32768 <= q <= 32767 ->
  quantize_coeff fb (dequantize_coeff fb q) = q.
Proof.
  intro Hq. unfold dequantize_coeff.
  rewrite quantize_coeff_of_scaled by lia. apply np_clip_id. exact Hq.
Qed.

Lemma requantize_fixed (fb : N) (b_q : list Z) :
  Forall (fun q => -32768 <= q <= 32767) b_q ->
  quantize fb (dequantize fb b_q) = b_q.
Proof.
  intro H. unfold quantize, dequantize. rewrite map_map.
  induction H as [| q rest Hq _ IH]; [reflexivity |].
  cbn [map]. rewrite quantize_coeff_of_dequantize by exact Hq.
  rewrite IH. reflexivity.
Qed.

Lemma quantize_in_range (fb : N) (b_float : list Q) :
  Forall (fun q => -32768 <= q <= 32767) (quantize fb b_float).
Proof.
  unfold quantize. apply Forall_map, Forall_forall.
  intros x _. apply quantize_coeff_range.
Qed.

(** X5.  For a bit count from 0 to 1023, quantizing reconstructed
    coefficients gives back the 16-bit coefficients they were computed
    from; so quantizing, reconstructing and quantizing again changes
    nothing. *)
Theorem quantize_of_dequantize (frac_bits : Z) :
  0 <= frac_bits <= 1023 ->
  (forall b_q : list Z,
      Forall (fun q => -32768 <= q <= 32767) b_q ->
      quantize_array frac_bits (dequantize (Z.to_N frac_bits) b_q)
      = Ok b_q) /\
  (forall b_float : list Q,
      exists b_q : list Z,
        quantize_array frac_bits b_float = Ok b_q /\
        quantize_array frac_bits (dequantize (Z.to_N frac_bits) b_q)
        = Ok b_q).
Proof.
  intro Hfb. split.
  - intros b_q Hq. rewrite quantize_array_ok by exact Hfb.
    rewrite requantize_fixed by exact Hq. reflexivity.
  - intro b_float. exists (quantize (Z.to_N frac_bits) b_float).
    rewrite !quantize_array_ok by exact Hfb.
    rewrite requantize_fixed by apply quantize_in_range.
    split; reflexivity.
Qed.

(** X6.  As long as the scaled values fit 32 bits, a larger coefficient never
    quantizes to a smaller integer. *)
Theorem quantize_coeff_monotone (fb : N) (x y : Q) :
  (-2147483648 <= x * inject_Z (scale_of fb))%Q ->
  (y * inject_Z (scale_of fb) <= 2147483647)%Q ->
  (x <= y)%Q ->
  quantize_coeff fb x <= quantize_coeff fb y.
Proof.
  intros Hx Hy Hxy.
  pose proof (scale_of_posQ fb) as Hs.
  assert (Hm : (x * inject_Z (scale_of fb) <= y * inject_Z (scale_of fb))%Q)
    by (apply Qmult_le_compat_r; lra).
  assert (Hr := np_round_monotone _ _ Hm).
  assert (Hxl : -2147483648 <= np_round (x * inject_Z (scale_of fb))).
  { apply np_round_lower.
    change (inject_Z (-2147483648)) with (-2147483648 # 1)%Q. lra. }
  assert (Hyu : np_round (y * inject_Z (scale_of fb)) <= 2147483647).
  { apply np_round_upper.
    change (inject_Z 2147483647) with (2147483647 # 1)%Q. lra. }
  rewrite !quantize_coeff_int32 by lia.
  unfold np_clip. lia.
Qed.
End Quantizer_laws.

Lemma quantize_of_dequantize_witness :
  quantize_array (P := x86_64) 15
    (dequantize (Z.to_N 15) [-32768; -1; 0; 291; 32767])
  = Ok [-32768; -1; 0; 291; 32767].
Proof.
  apply (proj1 (quantize_of_dequantize (P := x86_64) 15 ltac:(lia))).
  repeat constructor; discriminate.
Defined.

Lemma quantize_coeff_monotone_witness :
  quantize_coeff (P := x86_64) 15 (1 # 3) <= quantize_coeff (P := x86_64) 15 2.
Proof.
  apply quantize_coeff_monotone; vm_compute; discriminate.
Defined.

(** ** When the design function returns, and what it returns *)

Section Design_outcome.
Context {P : Platform} {L : Signal_library}.

Lemma design_ok_inv
    (fs : Z) (fc : list Q) (numtaps frac_bits : Z)
    (r : list Z * list Q * list Q) :
  design_bandpass_fir_filter fs fc numtaps frac_bits = Ok r ->
  exists fc0 fc1 rest fs_float fc0_float fc1_float b_float,
    fc = fc0 :: fc1 :: rest /\
    float_of_number (inject_Z fs) = Ok fs_float /\
    float_of_number fc0 = Ok fc0_float /\
    float_of_number fc1 = Ok fc1_float /\
    ~ ((1 # 2) * fs_float == 0)%Q /\
    0 <= frac_bits <= 1023 /\ b_float <> [] /\
    firwin numtaps (float_div fc0_float ((1 # 2) * fs_float))
                   (float_div fc1_float ((1 # 2) * fs_float)) = Ok b_float /\
    r = (quantize (Z.to_N frac_bits) b_float,
         dequantize (Z.to_N frac_bits) (quantize (Z.to_N frac_bits) b_float),
         b_float).
Proof.
  unfold design_bandpass_fir_filter.
  destruct (float_of_number (inject_Z fs)) as [fs_float | e] eqn:Hfs;
    [| discriminate].
  destruct fc as [| fc0 fc]; cbn [nth_error]; [discriminate |].
  destruct (float_of_number fc0) as [fc0_float | e] eqn:H0; [| discriminate].
  cbv zeta.
  destruct (Qeq_bool ((1 # 2) * fs_float) 0) eqn:Hny; [discriminate |].
  destruct fc as [| fc1 rest]; cbn [nth_error]; [discriminate |].
  destruct (float_of_number fc1) as [fc1_float | e] eqn:H1; [| discriminate].
  destruct (firwin _ _ _) as [b_float | e] eqn:Hfir; [| discriminate].
  destruct (quantize_array frac_bits b_float) as [b_q | e] eqn:Hq;
    [| discriminate].
  assert (Hfb : 0 <= frac_bits <= 1023).
  { unfold quantize_array in Hq.
    destruct (frac_bits <? 0) eqn:A; [discriminate |].
    destruct (1024 <=? frac_bits) eqn:B; [discriminate |].
    apply Z.ltb_ge in A. apply Z.leb_gt in B. lia. }
  rewrite quantize_array_ok in Hq by exact Hfb. injection Hq as <-.
  destruct b_float as [| b bs]; [discriminate |].
  cbn [quantize map].
  intro H. injection H as <-.
  exists fc0, fc1, rest, fs_float, fc0_float, fc1_float, (b :: bs).
  repeat split; try assumption; try lia.
  - intro E. apply Qeq_eq_bool in E. rewrite E in Hny. discriminate.
  - discriminate.
Qed.

(** X7.  The design function returns exactly when the band-edge list has
    at least two entries, the sampling rate and the two edges convert to
    floating point, the Nyquist frequency is not zero, the library call
    yields a non-empty kernel and the bit count lies between 0 and 1023;
    it then returns the quantized kernel, its reconstruction and the
    kernel. *)
Theorem design_returns_iff
    (fs : Z) (fc : list Q) (numtaps frac_bits : Z)
    (r : list Z * list Q * list Q) :
  design_bandpass_fir_filter fs fc numtaps frac_bits = Ok r <->
  exists fc0 fc1 rest fs_float fc0_float fc1_float b_float,
    fc = fc0 :: fc1 :: rest /\
    float_of_number (inject_Z fs) = Ok fs_float /\
    float_of_number fc0 = Ok fc0_float /\
    float_of_number fc1 = Ok fc1_float /\
    ~ ((1 # 2) * fs_float == 0)%Q /\
    0 <= frac_bits <= 1023 /\ b_float <> [] /\
    firwin numtaps (float_div fc0_float ((1 # 2) * fs_float))
                   (float_div fc1_float ((1 # 2) * fs_float)) = Ok b_float /\
    r = (quantize (Z.to_N frac_bits) b_float,
         dequantize (Z.to_N frac_bits) (quantize (Z.to_N frac_bits) b_float),
         b_float).
Proof.
  split; [apply design_ok_inv |].
  intros (fc0 & fc1 & rest & fs_float & fc0_float & fc1_float & b_float
          & -> & Hfs & H0 & H1 & Hny & Hfb & Hne & Hfir & ->).
  rewrite (design_reaches_library _ _ _ _ _ _ _ _ _ Hfs H0 H1 Hny), Hfir.
  rewrite quantize_array_ok by exact Hfb.
  destruct b_float; [contradiction | reflexivity].
Qed.

(** X8.  Whatever the design function returns is consistent: the three arrays
    have the same non-zero length, every quantized coefficient is a 16-bit
    value, [b_rec] is [b_q] divided by the scale, and quantizing [b_rec]
    gives [b_q] again. *)
Theorem design_result_consistent
    (fs : Z) (fc : list Q) (numtaps frac_bits : Z)
    (b_q : list Z) (b_rec b_float : list Q) :
  design_bandpass_fir_filter fs fc numtaps frac_bits
    = Ok (b_q, b_rec, b_float) ->
  (0 < List.length b_q)%nat /\
  List.length b_q = List.length b_float /\
  List.length b_rec = List.length b_float /\
  Forall (fun q => -32768 <= q <= 32767) b_q /\
  b_rec = dequantize (Z.to_N frac_bits) b_q /\
  quantize (Z.to_N frac_bits) b_rec = b_q.
Proof.
  intro H. apply design_ok_inv in H.
  destruct H as (fc0 & fc1 & rest & fs_float & fc0_float & fc1_float & b
                 & _ & _ & _ & _ & _ & _ & Hne & _ & E).
  injection E as -> -> ->.
  pose proof (quantize_in_range (Z.to_N frac_bits) b) as Hr.
  repeat split.
  - rewrite quantize_length. destruct b; [contradiction | cbn; lia].
  - apply quantize_length.
  - unfold dequantize. rewrite length_map. apply quantize_length.
  - exact Hr.
  - apply requantize_fixed. exact Hr.
Qed.
End Design_outcome.

Lemma design_result_consistent_witness :
  (0 < List.length [1; 2; 3; 2; 1]%Z)%nat /\
  List.length [1; 2; 3; 2; 1]
    = List.length [1 # 10; 2 # 10; 4 # 10; 2 # 10; 1 # 10]%Q /\
  List.length [1 # 8; 2 # 8; 3 # 8; 2 # 8; 1 # 8]%Q
    = List.length [1 # 10; 2 # 10; 4 # 10; 2 # 10; 1 # 10]%Q /\
  Forall (fun q => -32768 <= q <= 32767) [1; 2; 3; 2; 1] /\
  [1 # 8; 2 # 8; 3 # 8; 2 # 8; 1 # 8]%Q
    = dequantize (Z.to_N 3) [1; 2; 3; 2; 1] /\
  quantize (P := x86_64) (Z.to_N 3) [1 # 8; 2 # 8; 3 # 8; 2 # 8; 1 # 8]%Q
    = [1; 2; 3; 2; 1].
Proof.
  apply (design_result_consistent (P := x86_64) (L := example_library)
           2000 [5 # 1; 50 # 1]%Q 5 3).
  vm_compute. reflexivity.
Defined.

(** ** The hex importer on arbitrary exports and on canonical files *)

Lemma wrap16_of_uint16 (c : Z) :
  (if np_uint16 c >? 32767 then np_uint16 c - 65536 else np_uint16 c)
  = wrap16 c.
Proof.
  unfold np_uint16, wrap16.
  destruct (c mod 65536 >? 32767) eqn:G.
  - apply Z.gtb_lt in G. Z.div_mod_to_equations. lia.
  - rewrite Z.gtb_ltb in G. apply Z.ltb_ge in G.
    Z.div_mod_to_equations. lia.
Qed.

Lemma parse_hex_line_wrap (c : Z) : parse_hex_line (hex_line c) = Some (wrap16 c).
Proof.
  unfold parse_hex_line.
  rewrite strip_hex_line, int_base16_four_digits by apply np_uint16_range.
  rewrite wrap16_of_uint16. reflexivity.
Qed.

Lemma parse_hex_lines_export (coeffs : list Z) :
  parse_hex_lines (map hex_line coeffs) = Some (map wrap16 coeffs).
Proof.
  induction coeffs as [| c rest IH]; [reflexivity |].
  cbn [map parse_hex_lines]. rewrite parse_hex_line_wrap, IH. reflexivity.
Qed.

Lemma hex_line_wrap16 (c : Z) : hex_line (wrap16 c) = hex_line c.
Proof.
  unfold hex_line. f_equal. f_equal.
  unfold np_uint16, wrap16. Z.div_mod_to_equations. lia.
Qed.

(** X9.  Whatever integers the array holds, the exported file reads back as
    their 16-bit two's-complement values, and exporting those values writes
    the same file. *)
Theorem import_export_hex_wraps (coeffs : list Z) :
  import_coeffs_hex (export_coeffs_hex coeffs) = Some (map wrap16 coeffs) /\
  export_coeffs_hex (map wrap16 coeffs) = export_coeffs_hex coeffs.
Proof.
  split.
  - unfold import_coeffs_hex. rewrite readlines_export.
    apply parse_hex_lines_export.
  - induction coeffs as [| c rest IH]; [reflexivity |].
    cbn [map export_coeffs_hex]. rewrite hex_line_wrap16, IH. reflexivity.
Qed.

Lemma upper_hex_digit (a : ascii) :
  In a upper_hex_alphabet -> exists d, 0 <= d < 16 /\ a = hex_digit d.
Proof.
  intro H. cbn in H.
  repeat (destruct H as [H | H];
          [subst a;
           first [ exists 0; split; [lia | reflexivity]
                 | exists 1; split; [lia | reflexivity]
                 | exists 2; split; [lia | reflexivity]
                 | exists 3; split; [lia | reflexivity]
                 | exists 4; split; [lia | reflexivity]
                 | exists 5; split; [lia | reflexivity]
                 | exists 6; split; [lia | reflexivity]
                 | exists 7; split; [lia | reflexivity]
                 | exists 8; split; [lia | reflexivity]
                 | exists 9; split; [lia | reflexivity]
                 | exists 10; split; [lia | reflexivity]
                 | exists 11; split; [lia | reflexivity]
                 | exists 12; split; [lia | reflexivity]
                 | exists 13; split; [lia | reflexivity]
                 | exists 14; split; [lia | reflexivity]
                 | exists 15; split; [lia | reflexivity] ] |]).
  contradiction.
Qed.

Lemma four_digits_of_digits (d3 d2 d1 d0 : Z) :
  0 <= d3 < 16 -> 0 <= d2 < 16 -> 0 <= d1 < 16 -> 0 <= d0 < 16 ->
  four_digits (((d3 * 16 + d2) * 16 + d1) * 16 + d0) =
  String (hex_digit d3)
    (String (hex_digit d2) (String (hex_digit d1) (String (hex_digit d0) ""))).
Proof.
  intros H3 H2 H1 H0. unfold four_digits.
  set (v := ((d3 * 16 + d2) * 16 + d1) * 16 + d0).
  assert (E0 : v mod 16 = d0) by (subst v; Z.div_mod_to_equations; lia).
  assert (E1 : (v / 16) mod 16 = d1) by (subst v; Z.div_mod_to_equations; lia).
  assert (E2 : (v / 16 / 16) mod 16 = d2)
    by (subst v; Z.div_mod_to_equations; lia).
  assert (E3 : v / 16 / 16 / 16 = d3)
    by (subst v; Z.div_mod_to_equations; lia).
  rewrite E0, E1, E2, E3. reflexivity.
Qed.

Lemma canonical_is_export (line : string) :
  canonical_hex_line line ->
  exists c, -32768 <= c <= 32767 /\ line = hex_line c.
Proof.
  intros (a & b & c & d & -> & Ha & Hb & Hc & Hd).
  destruct (upper_hex_digit a Ha) as (d3 & H3 & ->).
  destruct (upper_hex_digit b Hb) as (d2 & H2 & ->).
  destruct (upper_hex_digit c Hc) as (d1 & H1 & ->).
  destruct (upper_hex_digit d Hd) as (d0 & H0 & ->).
  set (v := ((d3 * 16 + d2) * 16 + d1) * 16 + d0).
  assert (Hv : 0 <= v < 65536) by (subst v; lia).
  exists (wrap16 v). split; [apply wrap16_range |].
  unfold hex_line.
  assert (E : np_uint16 (wrap16 v) = v)
    by (unfold np_uint16, wrap16; Z.div_mod_to_equations; lia).
  rewrite E, format_04X_uint16 by exact Hv.
  subst v. rewrite four_digits_of_digits by assumption. reflexivity.
Qed.

Lemma canonical_lines_are_export (lines : list string) :
  Forall canonical_hex_line lines ->
  exists coeffs,
    Forall (fun c => -32768 <= c <= 32767) coeffs /\
    lines = map hex_line coeffs.
Proof.
  induction 1 as [| line rest Hl _ (coeffs & Hr & ->)].
  - exists []. split; [constructor | reflexivity].
  - destruct (canonical_is_export line Hl) as (c & Hc & ->).
    exists (c :: coeffs). split; [constructor; assumption | reflexivity].
Qed.

Lemma export_concat_lines (coeffs : list Z) :
  export_coeffs_hex coeffs = concat_lines (map hex_line coeffs).
Proof.
  induction coeffs as [| c rest IH]; [reflexivity |].
  cbn [export_coeffs_hex map concat_lines]. rewrite IH. reflexivity.
Qed.

Lemma map_wrap16_id (coeffs : list Z) :
  Forall (fun c => -32768 <= c <= 32767) coeffs -> map wrap16 coeffs = coeffs.
Proof.
  induction 1 as [| c rest Hc _ IH]; [reflexivity |].
  cbn [map]. rewrite wrap16_id by exact Hc. rewrite IH. reflexivity.
Qed.

(** X10.  A file made of lines of four upper-case hexadecimal digits is read
    completely, every value read is a 16-bit value, and exporting what was
    read writes the same file again. *)
Theorem export_import_hex (lines : list string) :
  Forall canonical_hex_line lines ->
  exists coeffs,
    import_coeffs_hex (concat_lines lines) = Some coeffs /\
    List.length coeffs = List.length lines /\
    Forall (fun c => -32768 <= c <= 32767) coeffs /\
    export_coeffs_hex coeffs = concat_lines lines.
Proof.
  intro H. destruct (canonical_lines_are_export lines H) as (coeffs & Hr & ->).
  exists coeffs. rewrite <- export_concat_lines.
  split; [| split; [| split]].
  - unfold import_coeffs_hex. rewrite readlines_export, parse_hex_lines_export.
    rewrite map_wrap16_id by exact Hr. reflexivity.
  - rewrite length_map. reflexivity.
  - exact Hr.
  - reflexivity.
Qed.

Lemma export_import_hex_witness :
  exists coeffs,
    import_coeffs_hex (concat_lines ["FFFF
"; "0123
"]) = Some coeffs /\
    List.length coeffs = List.length ["FFFF
"; "0123
"] /\
    Forall (fun c => -32768 <= c <= 32767) coeffs /\
    export_coeffs_hex coeffs = concat_lines ["FFFF
"; "0123
"].
Proof.
  apply export_import_hex.
  repeat constructor.
  - exists "F"%char, "F"%char, "F"%char, "F"%char.
    split; [reflexivity |]. cbn. tauto.
  - exists "0"%char, "1"%char, "2"%char, "3"%char.
    split; [reflexivity |]. cbn. tauto.
Defined.

(** ** How the importer fails, and what it accepts *)

Lemma parse_hex_lines_none (lines : list string) (line : string) :
  In line lines -> parse_hex_line line = None -> parse_hex_lines lines = None.
Proof.
  induction lines as [| l rest IH]; intros Hin Hbad; [contradiction |].
  cbn [parse_hex_lines]. destruct Hin as [-> | Hin].
  - rewrite Hbad. reflexivity.
  - destruct (parse_hex_line l); [| reflexivity].
    rewrite (IH Hin Hbad). reflexivity.
Qed.

Lemma parse_hex_lines_some (lines : list string) (coeffs : list Z) :
  parse_hex_lines lines = Some coeffs ->
  Forall2 (fun line c => parse_hex_line line = Some c) lines coeffs.
Proof.
  revert coeffs. induction lines as [| l rest IH]; intros coeffs H.
  - injection H as <-. constructor.
  - cbn [parse_hex_lines] in H.
    destruct (parse_hex_line l) as [v |] eqn:El; [| discriminate].
    destruct (parse_hex_lines rest) as [cs |] eqn:Er; [| discriminate].
    injection H as <-. constructor; [exact El | apply IH; reflexivity].
Qed.

(** X11.  On ASCII text the import is all or nothing.  One line that is
    not a hexadecimal number - a blank line included - loses the whole
    file; otherwise there is exactly one coefficient per line, in line
    order. *)
Theorem import_all_or_nothing (text : string) :
  ascii_text text ->
  (forall line,
      In line (readlines text) -> parse_hex_line line = None ->
      import_coeffs_hex text = None) /\
  (forall line,
      In line (readlines text) -> strip line = "" ->
      import_coeffs_hex text = None) /\
  (forall coeffs,
      import_coeffs_hex text = Some coeffs ->
      Forall2 (fun line c => parse_hex_line line = Some c)
              (readlines text) coeffs).
Proof.
  intros _. unfold import_coeffs_hex. split; [| split].
  - intros line Hin Hbad. exact (parse_hex_lines_none _ _ Hin Hbad).
  - intros line Hin Hblank. apply (parse_hex_lines_none _ line Hin).
    unfold parse_hex_line. rewrite Hblank. reflexivity.
  - intros coeffs H. apply parse_hex_lines_some. exact H.
Qed.

Lemma import_all_or_nothing_witness :
  import_coeffs_hex ("7FFF" ++ String carriage_return (String newline "")
                     ++ String newline "" ++ "0001") = None.
Proof.
  apply (proj1 (proj2 (import_all_or_nothing
                  ("7FFF" ++ String carriage_return (String newline "")
                   ++ String newline "" ++ "0001")
                  ltac:(repeat constructor))) (String newline "")).
  - vm_compute. right. left. reflexivity.
  - reflexivity.
Defined.

Lemma hex_value_range (c : ascii) (d : Z) :
  hex_value c = Some d -> 0 <= d < 16.
Proof.
  unfold hex_value. cbv zeta.
  set (n := Z.of_nat (nat_of_ascii c)).
  destruct ((48 <=? n) && (n <=? 57)) eqn:E1.
  { apply andb_true_iff in E1. destruct E1 as [A B].
    apply Z.leb_le in A, B. intro H. injection H as <-. lia. }
  destruct ((65 <=? n) && (n <=? 70)) eqn:E2.
  { apply andb_true_iff in E2. destruct E2 as [A B].
    apply Z.leb_le in A, B. intro H. injection H as <-. lia. }
  destruct ((97 <=? n) && (n <=? 102)) eqn:E3; [| discriminate].
  apply andb_true_iff in E3. destruct E3 as [A B].
  apply Z.leb_le in A, B. intro H. injection H as <-. lia.
Qed.

(** The digits read after [acc] give less than the next multiple of the
    power of sixteen for their count. *)
Lemma hex_body_bound (s : string) :
  forall (after : bool) (acc v : Z),
    0 <= acc -> hex_body s after acc = Some v ->
    0 <= v < (acc + 1) * 16 ^ Z.of_nat (String.length s).
Proof.
  induction s as [| c rest IH]; intros after acc v Hacc H.
  - cbn [hex_body] in H. destruct after; [discriminate |].
    injection H as <-. cbn. lia.
  - cbn [String.length]. rewrite Nat2Z.inj_succ, Z.pow_succ_r by lia.
    set (p := 16 ^ Z.of_nat (String.length rest)) in *.
    assert (0 < p) by (subst p; apply Z.pow_pos_nonneg; lia).
    cbn [hex_body] in H. destruct (is_underscore c).
    + destruct after; [discriminate |].
      apply IH in H; [| lia]. fold p in H. nia.
    + destruct (hex_value c) as [d |] eqn:Ed; [| discriminate].
      apply hex_value_range in Ed.
      apply IH in H; [| lia]. fold p in H. nia.
Qed.

Lemma hex_number_bound (s : string) (v : Z) :
  hex_number s = Some v -> 0 <= v < 16 ^ Z.of_nat (String.length s).
Proof.
  unfold hex_number. destruct s as [| c rest]; [discriminate |].
  destruct (is_underscore c); [discriminate |].
  intro H. apply hex_body_bound in H; lia.
Qed.

Lemma drop_prefix16_length (s : string) :
  (String.length (drop_prefix16 s) <= String.length s)%nat.
Proof.
  unfold drop_prefix16.
  destruct s as [| c0 [| c1 rest]]; [lia | lia |].
  destruct (Ascii.eqb c0 "0" && (Ascii.eqb c1 "x" || Ascii.eqb c1 "X"));
    [| lia].
  destruct rest as [| c2 rest']; [cbn; lia |].
  destruct (is_underscore c2); cbn [String.length]; lia.
Qed.

(** X12.  An ASCII line that the importer accepts and that has at most
    four characters between its surrounding white space is always read as
    a 16-bit value. *)
Theorem parse_hex_line_range (line : string) (c : Z) :
  ascii_text line ->
  parse_hex_line line = Some c ->
  (String.length (strip line) <= 4)%nat ->
  -32768 <= c <= 32767.
Proof.
  intros _. unfold parse_hex_line, int_base16. intros H Hlen.
  rewrite int_strip_of_strip in H.
  destruct (drop_sign (strip line)) as [negative s1] eqn:Es.
  destruct (hex_number (drop_prefix16 s1)) as [v |] eqn:Ev; [| discriminate].
  apply hex_number_bound in Ev.
  pose proof (drop_prefix16_length s1) as Hd.
  assert (Hs : (if negative
                then String.length s1 <= 3 else String.length s1 <= 4)%nat).
  { unfold drop_sign in Es. destruct (strip line) as [| ch rest].
    - injection Es as <- <-. cbn. lia.
    - cbn [String.length] in Hlen.
      destruct (Ascii.eqb ch "-"); [injection Es as <- <-; lia |].
      destruct (Ascii.eqb ch "+"); injection Es as <- <-;
        cbn [String.length]; lia. }
  injection H as <-.
  destruct negative.
  - assert (Hp : 16 ^ Z.of_nat (String.length (drop_prefix16 s1)) <= 16 ^ 3)
      by (apply Z.pow_le_mono_r; lia).
    change (16 ^ 3) with 4096 in Hp.
    destruct (- v >? 32767) eqn:G.
    + apply Z.gtb_lt in G. lia.
    + lia.
  - assert (Hp : 16 ^ Z.of_nat (String.length (drop_prefix16 s1)) <= 16 ^ 4)
      by (apply Z.pow_le_mono_r; lia).
    change (16 ^ 4) with 65536 in Hp.
    destruct (v >? 32767) eqn:G.
    + apply Z.gtb_lt in G. lia.
    + rewrite Z.gtb_ltb in G. apply Z.ltb_ge in G. lia.
Qed.

Lemma parse_hex_line_range_witness :
  (-32768 <= -1 <= 32767) /\ (-32768 <= -4095 <= 32767).
Proof.
  split.
  - apply (parse_hex_line_range ("  ffff" ++ String newline "") (-1)).
    + repeat constructor.
    + vm_compute. reflexivity.
    + vm_compute. lia.
  - apply (parse_hex_line_range
             ("-FFF" ++ String carriage_return (String newline "")) (-4095)).
    + repeat constructor.
    + vm_compute. reflexivity.
    + vm_compute. lia.
Defined.

(** Upper-casing leaves white space, line ends, signs, underscores and
    digit values alone, and keeps the letter of the prefix. *)
Lemma ascii_upper_facts (c : ascii) :
  is_space (ascii_upper c) = is_space c /\
  int_is_space (ascii_upper c) = int_is_space c /\
  Ascii.eqb (ascii_upper c) newline = Ascii.eqb c newline /\
  Ascii.eqb (ascii_upper c) carriage_return = Ascii.eqb c carriage_return /\
  Ascii.eqb (ascii_upper c) "-" = Ascii.eqb c "-" /\
  Ascii.eqb (ascii_upper c) "+" = Ascii.eqb c "+" /\
  Ascii.eqb (ascii_upper c) "0" = Ascii.eqb c "0" /\
  (Ascii.eqb (ascii_upper c) "x" || Ascii.eqb (ascii_upper c) "X")%bool
  = (Ascii.eqb c "x" || Ascii.eqb c "X")%bool /\
  is_underscore (ascii_upper c) = is_underscore c /\
  hex_value (ascii_upper c) = hex_value c.
Proof.
  destruct c as [[] [] [] [] [] [] [] []]; vm_compute; repeat split.
Qed.

Lemma lstrip_upper (s : string) :
  lstrip (string_upper s) = string_upper (lstrip s).
Proof.
  induction s as [| c rest IH]; [reflexivity |].
  cbn [string_upper lstrip].
  destruct (ascii_upper_facts c) as [E _]. rewrite E.
  destruct (is_space c); [exact IH | reflexivity].
Qed.

Lemma rstrip_upper (s : string) :
  rstrip (string_upper s) = string_upper (rstrip s).
Proof.
  induction s as [| c rest IH]; [reflexivity |].
  cbn [string_upper rstrip]. rewrite IH.
  destruct (ascii_upper_facts c) as [E _].
  destruct (rstrip rest) as [| c' r']; cbn [string_upper].
  - rewrite E. destruct (is_space c); reflexivity.
  - reflexivity.
Qed.

Lemma strip_upper (s : string) :
  strip (string_upper s) = string_upper (strip s).
Proof. unfold strip. rewrite lstrip_upper, rstrip_upper. reflexivity. Qed.

Lemma drop_sign_upper (s : string) :
  drop_sign (string_upper s)
  = (fst (drop_sign s), string_upper (snd (drop_sign s))).
Proof.
  destruct s as [| c rest]; [reflexivity |].
  cbn [string_upper drop_sign].
  destruct (ascii_upper_facts c) as (_ & _ & _ & _ & M & P & _).
  rewrite M, P.
  destruct (Ascii.eqb c "-"); [reflexivity |].
  destruct (Ascii.eqb c "+"); reflexivity.
Qed.

Lemma drop_prefix16_upper (s : string) :
  drop_prefix16 (string_upper s) = string_upper (drop_prefix16 s).
Proof.
  destruct s as [| c0 [| c1 rest]]; [reflexivity | reflexivity |].
  cbn [string_upper drop_prefix16].
  destruct (ascii_upper_facts c0) as (_ & _ & _ & _ & _ & _ & Z0 & _).
  destruct (ascii_upper_facts c1) as (_ & _ & _ & _ & _ & _ & _ & X1 & _).
  rewrite Z0, X1.
  destruct (Ascii.eqb c0 "0" && (Ascii.eqb c1 "x" || Ascii.eqb c1 "X"));
    [| reflexivity].
  destruct rest as [| c2 rest']; [reflexivity |].
  cbn [string_upper].
  destruct (ascii_upper_facts c2) as (_ & _ & _ & _ & _ & _ & _ & _ & U & _).
  rewrite U. destruct (is_underscore c2); reflexivity.
Qed.

Lemma hex_body_upper (s : string) :
  forall (after : bool) (acc : Z),
    hex_body (string_upper s) after acc = hex_body s after acc.
Proof.
  induction s as [| c rest IH]; intros after acc; [reflexivity |].
  cbn [string_upper hex_body].
  destruct (ascii_upper_facts c) as (_ & _ & _ & _ & _ & _ & _ & _ & U & V).
  rewrite U, V.
  destruct (is_underscore c).
  - destruct after; [reflexivity | apply IH].
  - destruct (hex_value c); [apply IH | reflexivity].
Qed.

Lemma hex_number_upper (s : string) :
  hex_number (string_upper s) = hex_number s.
Proof.
  destruct s as [| c rest]; [reflexivity |].
  unfold hex_number.
  change (string_upper (String c rest))
    with (String (ascii_upper c) (string_upper rest)).
  destruct (ascii_upper_facts c) as (_ & _ & _ & _ & _ & _ & _ & _ & U & _).
  rewrite U. destruct (is_underscore c); [reflexivity |].
  change (String (ascii_upper c) (string_upper rest))
    with (string_upper (String c rest)).
  apply hex_body_upper.
Qed.

Lemma parse_hex_line_upper (line : string) :
  parse_hex_line (string_upper line) = parse_hex_line line.
Proof.
  unfold parse_hex_line, int_base16.
  rewrite strip_upper, <- strip_upper, !int_strip_of_strip, strip_upper.
  rewrite drop_sign_upper.
  destruct (drop_sign (strip line)) as [negative s1]. cbn [fst snd].
  rewrite drop_prefix16_upper, hex_number_upper. reflexivity.
Qed.

Lemma universal_newlines_upper (text : string) :
  universal_newlines (string_upper text)
  = string_upper (universal_newlines text).
Proof.
  induction text as [| c rest IH]; [reflexivity |].
  cbn [string_upper universal_newlines].
  destruct (ascii_upper_facts c) as (_ & _ & _ & R & _). rewrite R.
  destruct (Ascii.eqb c carriage_return).
  - change (string_upper (String newline ?t))
      with (String newline (string_upper t)).
    cbn [string_upper]. change (ascii_upper newline) with newline.
    f_equal.
    destruct rest as [| c' rest']; [reflexivity |].
    cbn [string_upper].
    destruct (ascii_upper_facts c') as (_ & _ & N & R' & _). rewrite N.
    destruct (Ascii.eqb c' newline) eqn:En.
    + apply Ascii.eqb_eq in En. subst c'.
      cbn [string_upper universal_newlines] in IH.
      change (Ascii.eqb (ascii_upper newline) carriage_return)
        with false in IH.
      change (Ascii.eqb newline carriage_return) with false in IH.
      cbn iota in IH. cbn [string_upper] in IH.
      injection IH as IH. exact IH.
    + exact IH.
  - cbn [string_upper]. rewrite IH. reflexivity.
Qed.

Lemma split_lines_upper (text : string) :
  split_lines (string_upper text) = map string_upper (split_lines text).
Proof.
  induction text as [| c rest IH]; [reflexivity |].
  cbn [string_upper split_lines].
  destruct (ascii_upper_facts c) as (_ & _ & E & _). rewrite E, IH.
  destruct (Ascii.eqb c newline); [reflexivity |].
  destruct (split_lines rest); reflexivity.
Qed.

Lemma readlines_upper (text : string) :
  readlines (string_upper text) = map string_upper (readlines text).
Proof.
  unfold readlines. rewrite universal_newlines_upper. apply split_lines_upper.
Qed.

(** X13.  On ASCII text the importer does not care about the case of the
    letters: a file and its upper-cased copy are read alike. *)
Theorem import_ignores_case (text : string) :
  ascii_text text ->
  import_coeffs_hex (string_upper text) = import_coeffs_hex text.
Proof.
  intros _. unfold import_coeffs_hex. rewrite readlines_upper.
  induction (readlines text) as [| line rest IH]; [reflexivity |].
  cbn [map parse_hex_lines]. rewrite parse_hex_line_upper, IH. reflexivity.
Qed.

Lemma import_ignores_case_witness :
  import_coeffs_hex (string_upper ("0x7fff" ++ String newline "" ++ "-a_b"))
  = import_coeffs_hex ("0x7fff" ++ String newline "" ++ "-a_b") /\
  import_coeffs_hex ("0x7fff" ++ String newline "" ++ "-a_b")
  = Some [32767; -171].
Proof.
  split; [| vm_compute; reflexivity].
  apply import_ignores_case. repeat constructor.
Defined.

(** ** The decimal export *)

Lemma dec_digit_code (d : Z) :
  0 <= d < 10 -> Z.of_nat (nat_of_ascii (dec_digit d)) = 48 + d.
Proof.
  intro H.
  assert (C : d = 0 \/ d = 1 \/ d = 2 \/ d = 3 \/ d = 4 \/ d = 5 \/ d = 6 \/
              d = 7 \/ d = 8 \/ d = 9) by lia.
  repeat (destruct C as [C | C]; [subst d; reflexivity |]).
  subst d. reflexivity.
Qed.

Lemma dec_digit_cases (d : Z) (Q : ascii -> Prop) :
  Forall Q (list_ascii_of_string "0123456789") -> Q (dec_digit d).
Proof.
  intro H. rewrite Forall_forall in H. apply H.
  destruct d as [| p | p]; try (vm_compute; tauto).
  do 4 (try destruct p as [p | p |]); vm_compute; tauto.
Qed.

Lemma dec_digit_not_space (d : Z) : is_space (dec_digit d) = false.
Proof. apply dec_digit_cases. repeat constructor. Qed.

Lemma dec_digit_not_minus (d : Z) : dec_digit d <> "-"%char.
Proof. apply dec_digit_cases. repeat constructor; discriminate. Qed.

Lemma int_digits10_digit (d : Z) (rest : string) (acc : Z) :
  0 <= d < 10 ->
  int_digits10 (String (dec_digit d) rest) acc
  = int_digits10 rest (10 * acc + d).
Proof.
  intro H. cbn [int_digits10]. cbv zeta.
  rewrite (dec_digit_code d H).
  assert (A : (48 <=? 48 + d) = true) by (apply Z.leb_le; lia).
  assert (B : (48 + d <=? 57) = true) by (apply Z.leb_le; lia).
  rewrite A, B. cbn [andb]. f_equal. lia.
Qed.

(** Reading the digits written for [v] in front of [acc] shifts the value
    read so far and adds [v]. *)
Lemma dec_digits_value (fuel : nat) :
  forall (v : Z) (acc : string),
    0 <= v < 10 ^ Z.of_nat (S fuel) ->
    exists k, 0 <= k /\
      forall a, int_digits10 (dec_digits (S fuel) v acc) a
                = int_digits10 acc (a * 10 ^ k + v).
Proof.
  induction fuel as [| fuel IH]; intros v acc Hv.
  - exists 1. split; [lia |]. intro a.
    cbn [dec_digits]. change (10 ^ Z.of_nat 1) with 10 in Hv.
    rewrite Z.div_small by lia. cbn [Z.eqb].
    rewrite int_digits10_digit by (apply Z.mod_pos_bound; lia).
    rewrite Z.mod_small by lia. f_equal. lia.
  - cbn [dec_digits]. cbv zeta.
    destruct (v / 10 =? 0) eqn:Eq.
    + apply Z.eqb_eq in Eq. apply Z.div_small_iff in Eq; [| lia].
      exists 1. split; [lia |]. intro a.
      rewrite int_digits10_digit by (apply Z.mod_pos_bound; lia).
      rewrite Z.mod_small by lia. f_equal. lia.
    + assert (Hq : 0 <= v / 10 < 10 ^ Z.of_nat (S fuel)).
      { rewrite (Nat2Z.inj_succ (S fuel)), Z.pow_succ_r in Hv by lia.
        split; [apply Z.div_pos; lia |].
        apply Z.div_lt_upper_bound; lia. }
      destruct (IH (v / 10) (String (dec_digit (v mod 10)) acc) Hq)
        as (k & Hk & E).
      exists (k + 1). split; [lia |]. intro a.
      rewrite E, int_digits10_digit by (apply Z.mod_pos_bound; lia).
      f_equal. rewrite Z.pow_add_r by lia. change (10 ^ 1) with 10.
      pose proof (Z.div_mod v 10 ltac:(lia)). lia.
Qed.

(** The digits start with a digit and contain no white space. *)
Lemma dec_digits_shape (fuel : nat) :
  forall (v : Z) (acc : string),
    Forall (fun c => is_space c = false) (list_ascii_of_string acc) ->
    exists d rest,
      dec_digits (S fuel) v acc = String (dec_digit d) rest /\
      Forall (fun c => is_space c = false)
             (list_ascii_of_string (dec_digits (S fuel) v acc)).
Proof.
  induction fuel as [| fuel IH]; intros v acc Hacc.
  - exists (v mod 10), acc. cbn [dec_digits]. cbv zeta.
    destruct (v / 10 =? 0); (split; [reflexivity |]);
      constructor; solve [apply dec_digit_not_space | exact Hacc].
  - cbn [dec_digits]. cbv zeta.
    destruct (v / 10 =? 0).
    + exists (v mod 10), acc. split; [reflexivity |].
      constructor; [apply dec_digit_not_space | exact Hacc].
    + apply IH. constructor; [apply dec_digit_not_space | exact Hacc].
Qed.

Lemma log2_fuel10 (v : Z) : 0 <= v -> v < 10 ^ Z.of_nat (S (Z.to_nat (Z.log2 v))).
Proof.
  intro Hv.
  destruct (Z.eq_dec v 0) as [-> | Hn].
  - cbn. lia.
  - pose proof (Z.log2_nonneg v).
    rewrite Nat2Z.inj_succ, Z2Nat.id by lia.
    pose proof (Z.log2_spec v ltac:(lia)) as [_ Hu].
    apply Z.lt_le_trans with (2 ^ Z.succ (Z.log2 v)); [exact Hu |].
    apply Z.pow_le_mono_l. lia.
Qed.

Lemma format_d_no_space (c : Z) :
  Forall (fun ch => is_space ch = false) (list_ascii_of_string (format_d c)).
Proof.
  unfold format_d. destruct (c <? 0).
  - constructor; [reflexivity |].
    destruct (dec_digits_shape (Z.to_nat (Z.log2 (- c))) (- c) ""
                ltac:(constructor)) as (_ & _ & _ & H). exact H.
  - destruct (dec_digits_shape (Z.to_nat (Z.log2 c)) c ""
                ltac:(constructor)) as (_ & _ & _ & H). exact H.
Qed.

Lemma int_base10_format_d (c : Z) : int_base10 (format_d c) = Some c.
Proof.
  unfold format_d. destruct (c <? 0) eqn:Ec.
  - apply Z.ltb_lt in Ec.
    destruct (dec_digits_shape (Z.to_nat (Z.log2 (- c))) (- c) ""
                ltac:(constructor)) as (d & rest & Es & _).
    assert (Hn : 0 <= - c) by lia.
    destruct (dec_digits_value (Z.to_nat (Z.log2 (- c))) (- c) ""
                (conj Hn (log2_fuel10 (- c) Hn)))
      as (k & _ & E).
    specialize (E 0). cbn [int_digits10] in E.
    unfold int_base10. rewrite Es in *.
    change ("-"%char) with (Ascii false true false true true true false false)
      in *.
    cbv iota. rewrite E. f_equal. lia.
  - apply Z.ltb_ge in Ec.
    destruct (dec_digits_shape (Z.to_nat (Z.log2 c)) c ""
                ltac:(constructor)) as (d & rest & Es & _).
    destruct (dec_digits_value (Z.to_nat (Z.log2 c)) c ""
                (conj Ec (log2_fuel10 c Ec))) as (k & _ & E).
    specialize (E 0). cbn [int_digits10] in E.
    unfold int_base10. rewrite Es in *.
    pose proof (dec_digit_not_minus d) as Hm.
    destruct (dec_digit d) as [b0 b1 b2 b3 b4 b5 b6 b7] eqn:Ed.
    destruct b0, b1, b2, b3, b4, b5, b6, b7;
      try (rewrite E; f_equal; lia).
    exfalso. apply Hm. reflexivity.
Qed.

Lemma not_space_not_line_end (c : ascii) :
  is_space c = false ->
  Ascii.eqb c newline = false /\ Ascii.eqb c carriage_return = false.
Proof.
  intro Hc. split.
  - destruct (Ascii.eqb c newline) eqn:E; [| reflexivity].
    apply Ascii.eqb_eq in E. subst c. discriminate Hc.
  - destruct (Ascii.eqb c carriage_return) eqn:E; [| reflexivity].
    apply Ascii.eqb_eq in E. subst c. discriminate Hc.
Qed.

Lemma universal_newlines_line (s rest : string) :
  Forall (fun c => is_space c = false) (list_ascii_of_string s) ->
  universal_newlines (s ++ String newline rest)
  = s ++ String newline (universal_newlines rest).
Proof.
  induction s as [| c r IH]; intro H.
  - reflexivity.
  - cbn [list_ascii_of_string] in H. inversion H as [| ? ? Hc Hr]. subst.
    cbn [append universal_newlines].
    destruct (not_space_not_line_end c Hc) as [_ E].
    rewrite E, (IH Hr). reflexivity.
Qed.

Lemma split_lines_line (s rest : string) :
  Forall (fun c => is_space c = false) (list_ascii_of_string s) ->
  split_lines (s ++ String newline rest)
  = (s ++ String newline "") :: split_lines rest.
Proof.
  induction s as [| c r IH]; intro H.
  - reflexivity.
  - cbn [list_ascii_of_string] in H. inversion H as [| ? ? Hc Hr]. subst.
    cbn [append split_lines].
    destruct (not_space_not_line_end c Hc) as [E _].
    rewrite E, (IH Hr). reflexivity.
Qed.

Lemma readlines_line (s rest : string) :
  Forall (fun c => is_space c = false) (list_ascii_of_string s) ->
  readlines (s ++ String newline rest)
  = (s ++ String newline "") :: readlines rest.
Proof.
  intro H. unfold readlines.
  rewrite universal_newlines_line, split_lines_line by exact H. reflexivity.
Qed.

Lemma rstrip_line (s : string) :
  Forall (fun c => is_space c = false) (list_ascii_of_string s) ->
  rstrip (s ++ String newline "") = s.
Proof.
  induction s as [| c r IH]; intro H.
  - reflexivity.
  - cbn [list_ascii_of_string] in H. inversion H as [| ? ? Hc Hr]. subst.
    cbn [append rstrip]. rewrite (IH Hr).
    destruct r; [rewrite Hc |]; reflexivity.
Qed.

Lemma strip_line (s : string) :
  Forall (fun c => is_space c = false) (list_ascii_of_string s) ->
  strip (s ++ String newline "") = s.
Proof.
  intro H. unfold strip.
  destruct s as [| c r]; [reflexivity |].
  cbn [append lstrip].
  cbn [list_ascii_of_string] in H. inversion H as [| ? ? Hc Hr]. subst.
  rewrite Hc. apply (rstrip_line (String c r)). exact H.
Qed.

Lemma string_app_assoc (a b c : string) : (a ++ b) ++ c = a ++ (b ++ c).
Proof.
  induction a as [| ch a IH]; [reflexivity |].
  cbn [append]. rewrite IH. reflexivity.
Qed.

Lemma readlines_decimal (coeffs : list Z) :
  readlines (export_coeffs_decimal coeffs) = map decimal_line coeffs.
Proof.
  induction coeffs as [| c rest IH]; [reflexivity |].
  cbn [export_coeffs_decimal map]. unfold decimal_line at 1.
  rewrite string_app_assoc. cbn [append].
  rewrite readlines_line by apply format_d_no_space.
  rewrite IH. reflexivity.
Qed.

Lemma decimal_line_decodes (c : Z) :
  int_base10 (strip (decimal_line c)) = Some c.
Proof.
  unfold decimal_line. rewrite strip_line by apply format_d_no_space.
  apply int_base10_format_d.
Qed.

(** X14.  The decimal file has one line per coefficient, in index order and
    with no blank line, and every line, read as a signed decimal number,
    is its coefficient. *)
Theorem export_decimal_layout (coeffs : list Z) :
  readlines (export_coeffs_decimal coeffs) = map decimal_line coeffs /\
  List.length (readlines (export_coeffs_decimal coeffs)) = List.length coeffs /\
  map (fun line => int_base10 (strip line))
      (readlines (export_coeffs_decimal coeffs))
  = map Some coeffs.
Proof.
  rewrite readlines_decimal. split; [reflexivity |].
  split; [apply length_map |].
  rewrite map_map. apply map_ext. intro c. apply decimal_line_decodes.
Qed.

(** X15.  Different coefficient arrays never give the same decimal file. *)
Theorem export_decimal_injective (coeffs coeffs' : list Z) :
  export_coeffs_decimal coeffs = export_coeffs_decimal coeffs' ->
  coeffs = coeffs'.
Proof.
  intro H. apply (f_equal readlines) in H.
  rewrite !readlines_decimal in H.
  apply (f_equal (map (fun line => int_base10 (strip line)))) in H.
  rewrite !map_map in H.
  rewrite (map_ext _ Some decimal_line_decodes coeffs) in H.
  rewrite (map_ext _ Some decimal_line_decodes coeffs') in H.
  revert coeffs' H. induction coeffs as [| c rest IH]; intros [| c' rest'] H;
    try discriminate; [reflexivity |].
  cbn [map] in H. injection H as Hc Hr. subst c'. f_equal. apply IH, Hr.
Qed.

Lemma export_decimal_injective_witness : [12; -345; 0] = [12; -345; 0].
Proof.
  apply export_decimal_injective. reflexivity.
Defined.

Example export_decimal_example :
  export_coeffs_decimal [0; 7; -1; 32767; -32768; 100000] =
  "0
7
-1
32767
-32768
100000
".
Proof. vm_compute. reflexivity. Qed.


(** ** The whole run of the harness *)

Section Run.
Context {D : Dut}.

Lemma dut_trace_app (d : dut_state) (ps qs : list Pins) :
  dut_trace d (ps ++ qs)
  = (dut_trace d ps ++ dut_trace (fold_left rising_edge ps d) qs)%list.
Proof.
  revert d. induction ps as [| p ps IH]; intro d; [reflexivity |].
  cbn [app dut_trace fold_left]. rewrite IH. reflexivity.
Qed.

Lemma dut_trace_length (d : dut_state) (ps : list Pins) :
  List.length (dut_trace d ps) = List.length ps.
Proof.
  revert d. induction ps as [| p ps IH]; intro d; [reflexivity |].
  cbn [dut_trace List.length]. rewrite IH. reflexivity.
Qed.

Lemma clock_cycles_fold (n : nat) (p : Pins) (d : dut_state) :
  clock_cycles n p d = fold_left rising_edge (repeat p n) d.
Proof.
  revert d. induction n as [| n IH]; intro d; [reflexivity |].
  cbn [clock_cycles repeat fold_left]. apply IH.
Qed.

Lemma dut_trace_repeat (n : nat) (p : Pins) (d : dut_state) :
  dut_trace d (repeat p n) = map (fun k => clock_cycles k p d) (seq 1 n).
Proof.
  revert d. induction n as [| n IH]; intro d; [reflexivity |].
  cbn [repeat dut_trace seq map]. rewrite IH. f_equal.
  rewrite <- (seq_shift n 1), map_map. reflexivity.
Qed.

(** The feeding loop as a run of the device: from pins with reset low and
    ready high, sample [x] is driven as [drive x true]. *)
Lemma feed_trace (x_q15 : list Z) (p : Pins) (d : dut_state)
    (fir_out : list Z) :
  rst p = false -> m_axis_fir_tready p = true ->
  feed x_q15 p d fir_out =
  (match x_q15 with
   | [] => p
   | _ :: _ => drive (last x_q15 0) true
   end,
   fold_left rising_edge (map (fun x => drive x true) x_q15) d,
   (fir_out ++
    flat_map valid_sample
      (dut_trace d (map (fun x => drive x true) x_q15)))%list).
Proof.
  revert p d fir_out.
  induction x_q15 as [| x rest IH]; intros p d fir_out Hr Ht.
  - cbn. rewrite app_nil_r. reflexivity.
  - cbn [feed]. cbv zeta.
    assert (Ep : set_tvalid (set_tdata p x) true = drive x true).
    { unfold set_tvalid, set_tdata, drive. cbn. rewrite Hr, Ht. reflexivity. }
    rewrite Ep, (IH (drive x true)) by reflexivity.
    rewrite collect_app, <- app_assoc.
    cbn [map fold_left dut_trace flat_map].
    destruct rest as [| y rest']; [reflexivity |].
    rewrite !last_cons_default. reflexivity.
Qed.

Lemma flat_map_valid_length (l : list dut_state) :
  (List.length (flat_map valid_sample l) <= List.length l)%nat.
Proof.
  induction l as [| d l IH]; [apply le_n |].
  cbn [flat_map]. rewrite length_app. cbn [List.length].
  assert (H : (List.length (valid_sample d) <= 1)%nat)
    by (unfold valid_sample; destruct (m_axis_fir_tvalid d); cbn; lia).
  lia.
Qed.

Lemma flat_map_of_map (A : Type) (f : A -> dut_state) (l : list A) :
  flat_map valid_sample (map f l) = flat_map (fun a => valid_sample (f a)) l.
Proof.
  induction l as [| a l IH]; [reflexivity |].
  cbn [map flat_map]. rewrite IH. reflexivity.
Qed.

(** [run_fir] collects what a run of the device on the stimulus shows
    valid after the first six edges. *)
Lemma run_fir_trace (dut : dut_state) (x_q15 : list Z) :
  run_fir dut x_q15 =
  flat_map valid_sample
    (skipn (S RESET_CYCLES) (dut_trace dut (stimulus x_q15))).
Proof.
  unfold run_fir, released, stimulus. cbv zeta.
  change (set_rst reset_pins false) with (drive 0 false).
  rewrite (feed_trace x_q15 (drive 0 false)) by reflexivity.
  rewrite drain_trace. cbn [snd app].
  change (drive 0 false :: ?l)%list with ([drive 0 false] ++ l)%list.
  rewrite !dut_trace_app.
  rewrite <- clock_cycles_fold.
  set (d5 := clock_cycles RESET_CYCLES reset_pins dut).
  rewrite skipn_app, dut_trace_length, repeat_length.
  rewrite skipn_all2 by (rewrite dut_trace_length, repeat_length;
                         unfold RESET_CYCLES; lia).
  replace (S RESET_CYCLES - RESET_CYCLES)%nat with 1%nat
    by (unfold RESET_CYCLES; lia).
  cbn [app dut_trace skipn fold_left].
  rewrite flat_map_app. f_equal.
  rewrite dut_trace_repeat, flat_map_of_map.
  assert (Ep : set_tvalid
                 match x_q15 with
                 | [] => drive 0 false
                 | _ :: _ => drive (last x_q15 0) true
                 end false = drive (last x_q15 0) false)
    by (destruct x_q15; reflexivity).
  rewrite Ep. reflexivity.
Qed.

Lemma stimulus_length (x_q15 : list Z) :
  List.length (stimulus x_q15)
  = (S RESET_CYCLES + List.length x_q15 + DRAIN_CYCLES)%nat.
Proof.
  unfold stimulus. rewrite length_app, repeat_length.
  cbn [List.length]. rewrite length_app, length_map, repeat_length. lia.
Qed.

(** X16.  The harness is a run of the device on one fixed stimulus: five edges
    with reset asserted, one idle edge, one edge per input sample with
    [tvalid] asserted, and 300 idle edges that keep the last sample on the
    data pin.  [m_axis_fir_tready] is asserted on every edge.  The result
    is what the device shows valid after the first six edges, in edge
    order; nothing seen during reset is collected. *)
Theorem run_fir_is_a_run (dut : dut_state) (x_q15 : list Z) :
  run_fir dut x_q15 =
    flat_map valid_sample
      (skipn (S RESET_CYCLES) (dut_trace dut (stimulus x_q15))) /\
  List.length (stimulus x_q15)
    = (S RESET_CYCLES + List.length x_q15 + DRAIN_CYCLES)%nat /\
  Forall (fun p => m_axis_fir_tready p = true) (stimulus x_q15) /\
  firstn RESET_CYCLES (stimulus x_q15) = repeat reset_pins RESET_CYCLES /\
  Forall (fun p => rst p = false) (skipn RESET_CYCLES (stimulus x_q15)).
Proof.
  split; [apply run_fir_trace |].
  split; [apply stimulus_length |].
  unfold stimulus. split; [| split].
  - apply Forall_app. split; [apply Forall_forall; intros p Hp;
      apply repeat_spec in Hp; subst p; reflexivity |].
    constructor; [reflexivity |].
    apply Forall_app. split; apply Forall_forall; intros p Hp.
    + apply in_map_iff in Hp. destruct Hp as (x & <- & _). reflexivity.
    + apply repeat_spec in Hp. subst p. reflexivity.
  - rewrite firstn_app, repeat_length, Nat.sub_diag, firstn_O, app_nil_r.
    apply firstn_all2. rewrite repeat_length. apply le_n.
  - rewrite skipn_app, repeat_length, Nat.sub_diag.
    rewrite skipn_all2 by (rewrite repeat_length; apply le_n).
    cbn [app skipn]. constructor; [reflexivity |].
    apply Forall_app. split; apply Forall_forall; intros p Hp.
    + apply in_map_iff in Hp. destruct Hp as (x & <- & _). reflexivity.
    + apply repeat_spec in Hp. subst p. reflexivity.
Qed.

(** X17.  The harness never returns more samples than it fed plus the 300 drain
    cycles, whatever the device does. *)
Theorem run_fir_length (dut : dut_state) (x_q15 : list Z) :
  (List.length (run_fir dut x_q15) <= List.length x_q15 + DRAIN_CYCLES)%nat.
Proof.
  rewrite run_fir_trace.
  eapply Nat.le_trans; [apply flat_map_valid_length |].
  rewrite length_skipn, dut_trace_length, stimulus_length. lia.
Qed.

(** With no input at all the harness still resets and drains: the result
    is what the device shows valid during the 300 idle cycles. *)
Theorem run_fir_empty (dut : dut_state) :
  run_fir dut [] =
  flat_map
    (fun k => valid_sample
       (clock_cycles k (drive 0 false)
          (rising_edge (clock_cycles RESET_CYCLES reset_pins dut)
                       (drive 0 false))))
    (seq 1 DRAIN_CYCLES).
Proof.
  unfold run_fir, released. cbv zeta. cbn [feed].
  rewrite drain_trace. reflexivity.
Qed.
End Run.

(** ** The CSV rows of [test_fir_only] *)

Lemma csv_row_inside (t : list Q) (x_q15 : list Z) (x_float : list Q)
    (fir_q15 : list Z) (i : nat) :
  (i < List.length t)%nat -> (i < List.length x_q15)%nat ->
  (i < List.length x_float)%nat -> (i < List.length fir_q15)%nat ->
  csv_row t x_q15 x_float fir_q15 (map q15_to_float fir_q15) i
  = Ok (expected_row t x_q15 x_float fir_q15 i).
Proof.
  intros Ht Hq Hf Hy. unfold csv_row, expected_row.
  rewrite (nth_error_nth' t 0%Q Ht), (nth_error_nth' x_q15 0 Hq),
    (nth_error_nth' x_float 0%Q Hf), (nth_error_nth' fir_q15 0 Hy).
  rewrite nth_error_map, (nth_error_nth' fir_q15 0 Hy). reflexivity.
Qed.

Lemma csv_row_outside (t : list Q) (x_q15 : list Z) (x_float : list Q)
    (fir_q15 : list Z) (fir_float : list Q) (i : nat) :
  (List.length t <= i)%nat \/ (List.length x_q15 <= i)%nat \/
  (List.length x_float <= i)%nat ->
  csv_row t x_q15 x_float fir_q15 fir_float i = Raise IndexError.
Proof.
  intro H. unfold csv_row.
  destruct H as [H | [H | H]]; apply nth_error_None in H; rewrite H.
  - reflexivity.
  - destruct (nth_error t i); reflexivity.
  - destruct (nth_error t i); [| reflexivity].
    destruct (nth_error x_q15 i); reflexivity.
Qed.

Lemma write_rows_seq (t : list Q) (x_q15 : list Z) (x_float : list Q)
    (fir_q15 : list Z) (k a : nat) :
  let m := Nat.min (List.length t)
             (Nat.min (List.length x_q15) (List.length x_float)) in
  (a + k <= List.length fir_q15)%nat -> (a <= m)%nat ->
  write_rows t x_q15 x_float fir_q15 (map q15_to_float fir_q15) (seq a k)
  = (map (expected_row t x_q15 x_float fir_q15) (seq a (Nat.min k (m - a))),
     if (a + k <=? m)%nat then None else Some IndexError).
Proof.
  intro m. revert a. induction k as [| k IH]; intros a Hn Ha.
  - cbn. destruct (a + 0 <=? m)%nat eqn:E; [reflexivity |].
    apply Nat.leb_gt in E. lia.
  - cbn [seq write_rows].
    destruct (Nat.eq_dec a m) as [-> | Hne].
    + rewrite csv_row_outside by (subst m; lia).
      rewrite Nat.sub_diag, Nat.min_0_r. cbn [seq map].
      destruct (m + S k <=? m)%nat eqn:E; [| reflexivity].
      apply Nat.leb_le in E. lia.
    + rewrite csv_row_inside by (subst m; lia).
      rewrite (IH (S a)) by lia.
      replace (Nat.min (S k) (m - a)) with (S (Nat.min k (m - S a))) by lia.
      cbn [seq map].
      replace (S a + k <=? m)%nat with (a + S k <=? m)%nat
        by (f_equal; lia).
      reflexivity.
Qed.

Lemma write_csv_eq (t : list Q) (x_q15 : list Z) (x_float : list Q)
    (fir_q15 : list Z) :
  let m := Nat.min (List.length t)
             (Nat.min (List.length x_q15) (List.length x_float)) in
  write_csv t x_q15 x_float fir_q15
  = (map (expected_row t x_q15 x_float fir_q15)
         (seq 0 (Nat.min (List.length fir_q15) m)),
     if (List.length fir_q15 <=? m)%nat then None else Some IndexError).
Proof.
  intro m. unfold write_csv.
  rewrite (write_rows_seq t x_q15 x_float fir_q15 (List.length fir_q15) 0)
    by lia.
  fold m. rewrite Nat.sub_0_r. reflexivity.
Qed.

(** X18.  The CSV loop writes one row per output sample, pairing output [i] with
    time and input [i], as long as the input arrays are that long; at the
    first index past the shortest input array it stops with [IndexError],
    having written the rows before it. *)
Theorem write_csv_rows (t : list Q) (x_q15 : list Z) (x_float : list Q)
    (fir_q15 : list Z) :
  let m := Nat.min (List.length t)
             (Nat.min (List.length x_q15) (List.length x_float)) in
  write_csv t x_q15 x_float fir_q15
  = (map (expected_row t x_q15 x_float fir_q15)
         (seq 0 (Nat.min (List.length fir_q15) m)),
     if (List.length fir_q15 <=? m)%nat then None else Some IndexError).
Proof. intro m. subst m. rewrite write_csv_eq. reflexivity. Qed.

Section Csv_of_run.
Context {D : Dut}.

(** X19.  For a signal of [N] samples, the CSV of a harness run has at most [N]
    rows, and the loop ends in [IndexError] exactly when the device showed
    more valid outputs than there were inputs. *)
Theorem csv_of_run (dut : dut_state) (t x_float : list Q) (x_q15 : list Z) :
  List.length t = List.length x_q15 ->
  List.length x_float = List.length x_q15 ->
  let fir_q15 := run_fir dut x_q15 in
  let '(rows, e) := write_csv t x_q15 x_float fir_q15 in
  List.length rows = Nat.min (List.length fir_q15) (List.length x_q15) /\
  (e = Some IndexError <->
   (List.length x_q15 < List.length fir_q15)%nat) /\
  (e = None <-> (List.length fir_q15 <= List.length x_q15)%nat).
Proof.
  intros Ht Hf fir_q15. rewrite write_csv_eq. cbv zeta.
  rewrite Ht, Hf, !Nat.min_id.
  rewrite length_map, length_seq.
  split; [reflexivity |].
  destruct (List.length fir_q15 <=? List.length x_q15)%nat eqn:E.
  - apply Nat.leb_le in E. split; split; intro H;
      solve [discriminate | lia | reflexivity | assumption].
  - apply Nat.leb_gt in E. split; split; intro H;
      solve [discriminate | lia | reflexivity | assumption].
Qed.
End Csv_of_run.

Lemma csv_of_run_witness :
  snd (write_csv [0; 1 # 2000; 2 # 2000]%Q [8; 0; 0] [1 # 4096; 0; 0]%Q
         (run_fir (D := example_dut) ([0; 0; 0; 0; 0], false, 0) [8; 0; 0]))
  = None.
Proof.
  generalize (csv_of_run (D := example_dut) ([0; 0; 0; 0; 0], false, 0)
                [0; 1 # 2000; 2 # 2000]%Q [1 # 4096; 0; 0]%Q [8; 0; 0]
                eq_refl eq_refl).
  cbv zeta. destruct (write_csv _ _ _ _) as [rows e].
  intros [_ [_ H]]. cbn [snd]. apply H. vm_compute. lia.
Defined.

(** ** The step selection of the flow runner *)

Lemma steps_until_prefix (name : string) (steps : list (string * string)) :
  exists rest, steps = (steps_until name steps ++ rest)%list.
Proof.
  induction steps as [| [n id] steps [rest IH]].
  - exists []. reflexivity.
  - cbn [steps_until]. destruct (String.eqb n name).
    + exists steps. reflexivity.
    + exists rest. cbn [app]. rewrite <- IH. reflexivity.
Qed.

Lemma steps_until_found (name : string) (steps : list (string * string)) :
  In name (map fst steps) ->
  exists before id,
    steps_until name steps = (before ++ [(name, id)])%list /\
    ~ In name (map fst before).
Proof.
  induction steps as [| [n id] steps IH]; intro Hin; [contradiction |].
  cbn [steps_until]. destruct (String.eqb n name) eqn:E.
  - apply String.eqb_eq in E. subst n.
    exists [], id. split; [reflexivity | intros []].
  - apply String.eqb_neq in E.
    destruct Hin as [Hin | Hin]; [cbn in Hin; contradiction |].
    destruct (IH Hin) as (before & id' & Eq & Hnot).
    exists ((n, id) :: before), id'. split.
    + rewrite Eq. reflexivity.
    + cbn [map fst In]. intros [H | H]; [contradiction | exact (Hnot H)].
Qed.

Lemma steps_until_missing (name : string) (steps : list (string * string)) :
  ~ In name (map fst steps) ->
  existsb (fun '(n, _) => String.eqb n name) (steps_until name steps) = false.
Proof.
  induction steps as [| [n id] steps IH]; intro Hnot; [reflexivity |].
  cbn [steps_until].
  destruct (String.eqb n name) eqn:E.
  - apply String.eqb_eq in E. subst n. exfalso. apply Hnot. left. reflexivity.
  - cbn [existsb]. rewrite E. cbn [orb]. apply IH.
    intro H. apply Hnot. right. exact H.
Qed.

Lemma existsb_last (name id : string) (before : list (string * string)) :
  existsb (fun '(n, _) => String.eqb n name) (before ++ [(name, id)]) = true.
Proof.
  rewrite existsb_app. cbn [existsb]. rewrite String.eqb_refl.
  rewrite orb_true_r. reflexivity.
Qed.

Lemma find_step_missing (name : string) (steps : list (string * string)) :
  ~ In name (map fst steps) -> find_step name steps = [].
Proof.
  induction steps as [| [n id] steps IH]; intro Hnot; [reflexivity |].
  cbn [find_step]. destruct (String.eqb n name) eqn:E.
  - apply String.eqb_eq in E. subst n. exfalso. apply Hnot. left. reflexivity.
  - apply IH. intro H. apply Hnot. right. exact H.
Qed.

Lemma find_step_found (name : string) (steps : list (string * string)) :
  In name (map fst steps) ->
  exists id, find_step name steps = [(name, id)] /\ In (name, id) steps.
Proof.
  induction steps as [| [n id] steps IH]; intro Hin; [contradiction |].
  cbn [find_step]. destruct (String.eqb n name) eqn:E.
  - apply String.eqb_eq in E. subst n. exists id.
    split; [reflexivity | left; reflexivity].
  - apply String.eqb_neq in E.
    destruct Hin as [Hin | Hin]; [cbn in Hin; contradiction |].
    destruct (IH Hin) as (id' & Ef & Hi). exists id'.
    split; [exact Ef | right; exact Hi].
Qed.

Lemma truthy_some (name : string) : name <> "" -> truthy (Some name) = true.
Proof.
  intro H. cbn [truthy]. apply String.eqb_neq in H. rewrite H. reflexivity.
Qed.

(** X20.  [--until name], for a step of the flow, selects the steps of the flow
    from the first one up to and including that step, in flow order. *)
Theorem steps_to_run_until (single_step : option string) (name : string) :
  truthy single_step = false -> name <> "" ->
  In name (map fst FLOW_STEPS) ->
  exists before id rest,
    steps_to_run single_step (Some name)
      = Selected (before ++ [(name, id)])%list /\
    FLOW_STEPS = (before ++ (name, id) :: rest)%list /\
    ~ In name (map fst before).
Proof.
  intros Hs Hn Hin. unfold steps_to_run.
  rewrite Hs, (truthy_some name Hn). cbn [arg_value]. cbv zeta.
  destruct (steps_until_found name FLOW_STEPS Hin) as (before & id & E & Hnot).
  destruct (steps_until_prefix name FLOW_STEPS) as [rest Er].
  rewrite E in *. rewrite existsb_last.
  exists before, id, rest. split; [reflexivity |]. split; [| exact Hnot].
  rewrite Er, <- app_assoc. reflexivity.
Qed.

Lemma steps_to_run_until_witness :
  exists before id rest,
    steps_to_run None (Some "floorplan")
      = Selected (before ++ [("floorplan", id)])%list /\
    FLOW_STEPS = (before ++ ("floorplan", id) :: rest)%list /\
    ~ In "floorplan" (map fst before).
Proof.
  apply steps_to_run_until.
  - reflexivity.
  - discriminate.
  - cbn. tauto.
Defined.

(** X21.  [--step name], for a step of the flow, selects exactly that step, and
    [--until] is then ignored. *)
Theorem steps_to_run_single (name : string) (until_step : option string) :
  name <> "" -> In name (map fst FLOW_STEPS) ->
  exists id,
    steps_to_run (Some name) until_step = Selected [(name, id)] /\
    In (name, id) FLOW_STEPS.
Proof.
  intros Hn Hin. unfold steps_to_run.
  rewrite (truthy_some name Hn). cbn [arg_value].
  destruct (find_step_found name FLOW_STEPS Hin) as (id & E & Hi).
  rewrite E. exists id. split; [reflexivity | exact Hi].
Qed.

Lemma steps_to_run_single_witness :
  exists id,
    steps_to_run (Some "cts") (Some "synthesis") = Selected [("cts", id)] /\
    In ("cts", id) FLOW_STEPS.
Proof.
  apply steps_to_run_single.
  - discriminate.
  - cbn. tauto.
Defined.

(** X22.  A name that is not a step of the flow ends the run with exit status 1,
    through [--step] and through [--until] alike; an empty or absent name
    counts as not given, and without names the whole flow is selected. *)
Theorem steps_to_run_unknown (name : string) :
  name <> "" -> ~ In name (map fst FLOW_STEPS) ->
  (forall until_step, steps_to_run (Some name) until_step = Exited 1) /\
  (forall single_step,
      truthy single_step = false ->
      steps_to_run single_step (Some name) = Exited 1) /\
  (forall single_step until_step,
      truthy single_step = false -> truthy until_step = false ->
      steps_to_run single_step until_step = Selected FLOW_STEPS).
Proof.
  intros Hn Hnot. split; [| split].
  - intro until_step. unfold steps_to_run.
    rewrite (truthy_some name Hn). cbn [arg_value].
    rewrite (find_step_missing name FLOW_STEPS Hnot). reflexivity.
  - intros single_step Hs. unfold steps_to_run.
    rewrite Hs, (truthy_some name Hn). cbn [arg_value]. cbv zeta.
    rewrite (steps_until_missing name FLOW_STEPS Hnot). reflexivity.
  - intros single_step until_step Hs Hu. unfold steps_to_run.
    rewrite Hs, Hu. reflexivity.
Qed.

Lemma steps_to_run_unknown_witness :
  steps_to_run (Some "routing") None = Exited 1.
Proof.
  apply (steps_to_run_unknown "routing").
  - discriminate.
  - cbn. intro H.
    repeat (destruct H as [H | H]; [discriminate H |]). exact H.
Defined.

(** ** Running the selected steps *)

Section Flow_run.
Context {T : Flow_tools}.

Lemma run_steps_app_returned (state s1 : flow_state)
    (before rest : list (string * string)) (started : list string) :
  run_steps state before = (started, Returned s1) ->
  run_steps state (before ++ rest)
  = ((started ++ fst (run_steps s1 rest))%list, snd (run_steps s1 rest)).
Proof.
  revert state started.
  induction before as [| [n id] before IH]; intros state started H.
  - cbn in H. injection H as <- <-. cbn [app].
    destruct (run_steps state rest). reflexivity.
  - cbn [run_steps app] in *.
    destruct (step_state_out state id) as [s' |]; [| discriminate].
    destruct (run_steps s' before) as [st r] eqn:E.
    injection H as <- ->.
    rewrite (IH s' st E). reflexivity.
Qed.

Lemma run_steps_returned_all (state s1 : flow_state)
    (steps : list (string * string)) (started : list string) :
  run_steps state steps = (started, Returned s1) ->
  started = map snd steps.
Proof.
  revert state started.
  induction steps as [| [n id] steps IH]; intros state started H.
  - cbn in H. injection H as <- _. reflexivity.
  - cbn [run_steps] in H.
    destruct (step_state_out state id) as [s' |]; [| discriminate].
    destruct (run_steps s' steps) as [st r] eqn:E.
    injection H as <- ->. cbn [map snd]. f_equal. exact (IH s' st E).
Qed.

(** X23.  The flow stops at the first step that fails: when the steps before it
    have run and it raises, the steps after it are never started. *)
Theorem run_steps_stops_at_failure (state s1 : flow_state)
    (before rest : list (string * string)) (name step_id : string) :
  run_steps state before = (map snd before, Returned s1) ->
  step_state_out s1 step_id = None ->
  run_steps state (before ++ (name, step_id) :: rest)
  = ((map snd before ++ [step_id])%list, Raised).
Proof.
  intros Hb Hfail.
  rewrite (run_steps_app_returned _ _ _ _ _ Hb).
  cbn [run_steps]. rewrite Hfail. reflexivity.
Qed.

(** X24.  Steps run in the order selected, each on the state its predecessor
    left: running a list of steps is running its first part and then the
    rest from the state reached. *)
Theorem run_steps_compose (state s1 : flow_state)
    (before rest : list (string * string)) (started : list string) :
  run_steps state before = (started, Returned s1) ->
  started = map snd before /\
  run_steps state (before ++ rest)
  = ((started ++ fst (run_steps s1 rest))%list, snd (run_steps s1 rest)).
Proof.
  intro H. split.
  - exact (run_steps_returned_all _ _ _ _ H).
  - exact (run_steps_app_returned _ _ _ _ _ H).
Qed.

Lemma run_steps_no_exit (state : flow_state) (steps : list (string * string))
    (code : Z) :
  snd (run_steps state steps) <> SystemExit code.
Proof.
  revert state. induction steps as [| [n id] steps IH]; intro state.
  - cbn. discriminate.
  - cbn [run_steps]. destruct (step_state_out state id) as [s' |].
    + specialize (IH s'). destruct (run_steps s' steps). exact IH.
    + cbn. discriminate.
Qed.
End Flow_run.

Lemma run_steps_stops_at_failure_witness :
  run_steps (T := example_tools) O FLOW_STEPS
  = (["Yosys.Synthesis"; "OpenROAD.Floorplan";
      "OpenROAD.TapEndcapInsertion"; "OpenROAD.IOPlacement";
      "OpenROAD.GeneratePDN"; "OpenROAD.GlobalPlacement";
      "OpenROAD.DetailedPlacement"; "OpenROAD.CTS"], Raised).
Proof.
  apply (run_steps_stops_at_failure (T := example_tools) O 7%nat
           (firstn 7 FLOW_STEPS) (skipn 8 FLOW_STEPS) "cts" "OpenROAD.CTS");
    reflexivity.
Defined.

Lemma run_steps_compose_witness :
  run_steps (T := example_tools) O
    (firstn 3 FLOW_STEPS ++ firstn 2 (skipn 3 FLOW_STEPS))
  = (["Yosys.Synthesis"; "OpenROAD.Floorplan";
      "OpenROAD.TapEndcapInsertion"; "OpenROAD.IOPlacement";
      "OpenROAD.GeneratePDN"], Returned 5%nat).
Proof.
  apply (run_steps_compose (T := example_tools) O 3%nat
           (firstn 3 FLOW_STEPS) (firstn 2 (skipn 3 FLOW_STEPS))
           ["Yosys.Synthesis"; "OpenROAD.Floorplan";
            "OpenROAD.TapEndcapInsertion"]).
  reflexivity.
Defined.
